(** * FlowKit: the GatingResults report (flowkit/_models/gating_results.py)

    A shallow embedding of the [GatingResults] class and of the queries it
    offers on the outcome of gating one sample, with the properties of its
    specification.

    Python values are embedded in a typed universe:
    - gate ids and sample names are strings;
    - the path component of a key of the raw results is a string (as built by
      joining ancestor ids with a slash) or a tuple of ids;
    - counts are integers; a percentage is the rational that its double is
      (the class only stores and returns it, and every finite double is a
      rational); a membership vector is a list of booleans;
    - a dict whose iteration order is observable is an association list with
      pairwise distinct keys (insertion order); the gate lookup table, which
      is only read by key, is a [gmap]. *)

From Stdlib Require Import ZArith QArith Sorted.
From stdpp Require Import base strings list gmap.


(** ** Exceptions and results *)

Inductive exn :=
  | KeyError
  | IndexError
  | TypeError
  | ZeroDivisionError
  | ValueError (msg : string)
  | NotImplementedError (msg : string).

Inductive result (A : Type) :=
  | Ok (a : A)
  | Raise (e : exn).
Arguments Ok {A} a.
Arguments Raise {A} e.

(** ** Insertion-ordered dicts *)

Section Dict.
Context {K V : Type} `{EqDecision K}.

Definition dict_keys (d : list (K * V)) : list K := d.*1.

Fixpoint dict_get (k : K) (d : list (K * V)) : option V :=
  match d with
  | [] => None
  | (k', v) :: d' => if decide (k = k') then Some v else dict_get k d'
  end.

(** [k in d] *)
Definition dict_has (k : K) (d : list (K * V)) : bool :=
  bool_decide (k ∈ dict_keys d).

(** [d[k]], raising [KeyError] on a missing key *)
Definition dict_index (k : K) (d : list (K * V)) : result V :=
  match dict_get k d with
  | Some v => Ok v
  | None => Raise KeyError
  end.
End Dict.

(** ** Raw results *)

(** The second component of a key of the raw results. *)
Inductive pathkey :=
  | PStr (s : string)
  | PTuple (ids : list string).

Global Instance pathkey_eq_dec : EqDecision pathkey.
Proof. solve_decision. Defined.

(** What a caller may pass as [gate_path]: a list of ancestor ids, or
    any hashable value (a string, a tuple). *)
Inductive path_arg :=
  | ArgList (ids : list string)
  | ArgKey (k : pathkey).

(** The outcome record of one gate (or of one quadrant of a quadrant gate). *)
Record res_dict := {
  res_sample : string;
  res_gate_path : list string;
  res_parent : option string;
  res_gate_type : string;
  res_count : Z;
  res_absolute_percent : Q;
  res_relative_percent : Q;
  res_events : list bool
}.

(** A value of the raw results: the outcome record of a gate, or for a
    quadrant gate the dict of the outcome records of its quadrants. *)
Inductive raw_result :=
  | Simple (res : res_dict)
  | Quad (subs : list (string * res_dict)).

Definition raw_results := list ((string * pathkey) * raw_result).

(** ['events' in res] *)
Definition has_events (res : raw_result) : bool :=
  match res with
  | Simple _ => true
  | Quad subs => dict_has "events" subs
  end.

(** The keys [_get_pd_result_dict] reads, in the order it reads them. *)
Definition pd_read_keys : list string :=
  ["sample"; "gate_path"; "parent"; "gate_type"; "count";
   "absolute_percent"; "relative_percent"].

(** ** The report *)

Record pd_dict := {
  sample : string;
  gate_path : list string;
  parent : option string;
  gate_id : string;
  gate_type : string;
  count : Z;
  absolute_percent : Q;
  relative_percent : Q;
  quadrant_parent : option string
}.

(** A row of the report: the columns of a [pd_dict] and the [level] column. *)
Record report_row := {
  columns :> pd_dict;
  level : nat
}.

Record lut_entry := { paths : list pathkey }.

Record GatingResults := {
  _raw_results : raw_results;
  _gate_lut : gmap string lut_entry;
  report : list report_row;
  sample_id : string
}.

(** ** Construction *)

Definition _get_pd_result_dict (res : res_dict) (g_id : string) : pd_dict :=
  {| sample := res_sample res;
     gate_path := res_gate_path res;
     parent := res_parent res;
     gate_id := g_id;
     gate_type := res_gate_type res;
     count := res_count res;
     absolute_percent := res_absolute_percent res;
     relative_percent := res_relative_percent res;
     quadrant_parent := None |}.

(** [pd_dict['quadrant_parent'] = g_id] *)
Definition set_quadrant_parent (g_id : string) (d : pd_dict) : pd_dict :=
  {| sample := sample d;
     gate_path := gate_path d;
     parent := parent d;
     gate_id := gate_id d;
     gate_type := gate_type d;
     count := count d;
     absolute_percent := absolute_percent d;
     relative_percent := relative_percent d;
     quadrant_parent := Some g_id |}.

(** The [if ... not in self._gate_lut ... else ... append] step. *)
Definition lut_add (g_id : string) (g_path : pathkey)
    (lut : gmap string lut_entry) : gmap string lut_entry :=
  match lut !! g_id with
  | None => <[g_id := {| paths := [g_path] |}]> lut
  | Some e => <[g_id := {| paths := paths e ++ [g_path] |}]> lut
  end.

(** The state of the loop of [_process_results]: [pd_list], the lookup
    table, and whether a row was built from a quadrant dict (see
    [process_item]). *)
Record build_state := {
  pd_list : list pd_dict;
  lut : gmap string lut_entry;
  untyped_row : bool
}.

Definition process_sub (g_id : string) (g_path : pathkey)
    (st : build_state) (sub : string * res_dict) : build_state :=
  let pd := set_quadrant_parent g_id (_get_pd_result_dict sub.2 sub.1) in
  {| pd_list := pd_list st ++ [pd];
     lut := lut_add sub.1 g_path (lut st);
     untyped_row := untyped_row st |}.

(** One iteration of the outer loop. A quadrant dict with a quadrant named
    "events" takes the branch of the simple gates: [_get_pd_result_dict]
    then reads the field names in it as keys, which raises [KeyError] at the
    first one missing; when all are there the row holds dicts where strings
    and numbers belong, and the sort of the report fails on them. *)
Definition process_item (st : build_state)
    (item : (string * pathkey) * raw_result) : result build_state :=
  let '((g_id, g_path), res) := item in
  match res with
  | Simple r =>
      Ok {| pd_list := pd_list st ++ [_get_pd_result_dict r g_id];
            lut := lut_add g_id g_path (lut st);
            untyped_row := untyped_row st |}
  | Quad subs =>
      if negb (has_events res) then
        Ok (foldl (process_sub g_id g_path) st subs)
      else if forallb (fun k => dict_has k subs) pd_read_keys then
        Ok {| pd_list := pd_list st;
              lut := lut_add g_id g_path (lut st);
              untyped_row := true |}
      else Raise KeyError
  end.

Fixpoint process_items (st : build_state) (items : raw_results)
    : result build_state :=
  match items with
  | [] => Ok st
  | item :: items' =>
      match process_item st item with
      | Ok st' => process_items st' items'
      | Raise e => Raise e
      end
  end.

(** [df['level'] = df.gate_path.map(len)] *)
Definition add_level (d : pd_dict) : report_row :=
  {| columns := d; level := length (gate_path d) |}.

Definition cmp_then (c1 c2 : comparison) : comparison :=
  match c1 with
  | Eq => c2
  | _ => c1
  end.

(** The order of [sort_values(['sample', 'level', 'gate_id'])]. *)
Definition row_compare (a b : report_row) : comparison :=
  cmp_then (String.compare (sample a) (sample b))
    (cmp_then (Nat.compare (level a) (level b))
       (String.compare (gate_id a) (gate_id b))).

Definition row_leb (a b : report_row) : bool :=
  match row_compare a b with
  | Gt => false
  | _ => true
  end.

Fixpoint insert_row (a : report_row) (l : list report_row) : list report_row :=
  match l with
  | [] => [a]
  | b :: l' => if row_leb a b then a :: l else b :: insert_row a l'
  end.

(** A stable sort: rows with equal keys keep their order. *)
Definition sort_values (l : list report_row) : list report_row :=
  foldr insert_row [] l.

Definition initial_state : build_state :=
  {| pd_list := []; lut := ∅; untyped_row := false |}.

(** [GatingResults(results_dict, sample_id)]: [__init__] followed by
    [_process_results]. *)
Definition __init__ (results_dict : raw_results) (sid : string)
    : result GatingResults :=
  match process_items initial_state results_dict with
  | Raise e => Raise e
  | Ok st =>
      if untyped_row st then Raise TypeError
      else
        Ok {| _raw_results := results_dict;
              _gate_lut := lut st;
              report := sort_values (add_level <$> pd_list st);
              sample_id := sid |}
  end.

(** ** Queries

    The methods run on a [GatingResults] instance: a computation takes
    [self] and gives back what the method returns or raises, and [self]
    as the method leaves it. *)

Definition M (A : Type) : Type := GatingResults → result A * GatingResults.

Global Instance M_ret : MRet M := λ A a self, (Ok a, self).

Global Instance M_bind : MBind M := λ A B f m self,
  match m self with
  | (Ok a, self') => f a self'
  | (Raise e, self') => (Raise e, self')
  end.

Definition raise {A : Type} (e : exn) : M A := λ self, (Raise e, self).

(** Reading an attribute of [self]. *)
Definition attr {A : Type} (f : GatingResults → A) : M A :=
  λ self, (Ok (f self), self).

Definition lift {A : Type} (r : result A) : M A := λ self, (r, self).

Definition ambiguous_msg : string :=
  "Gate ID %s is ambiguous, specify the full gate path".

Definition multiple_parents_msg (gate_id : string) : string :=
  "Report as bug: The gate " +:+ gate_id
    +:+ " appears to have multiple quadrant parents.".

Definition not_implemented_msg : string :=
  "Gate ID %s is ambiguous and gate_path is not yet implemented for this method".

(** [report[(report['sample'] == sample_id) & (report['gate_id'] == gate_id)]] *)
Definition select_rows (sid g_id : string) (rep : list report_row)
    : list report_row :=
  filter (λ row : report_row, sample row = sid ∧ gate_id row = g_id) rep.

(** What [get_gate_indices] can return: the membership vector, or, when the
    raw value found is a quadrant dict with a quadrant named "events", the
    outcome record of that quadrant. *)
Inductive indices_value :=
  | Events (a : list bool)
  | ResDict (r : res_dict).

(** [res['events']] *)
Definition events_of (res : raw_result) : result indices_value :=
  match res with
  | Simple r => Ok (Events (res_events r))
  | Quad subs =>
      match dict_get "events" subs with
      | Some r => Ok (ResDict r)
      | None => Raise KeyError
      end
  end.

(** The fields of an outcome record that hold NumPy values: the array of
    events, and the count and the percentages, which are NumPy scalars. *)
Definition numpy_keys : list string :=
  ["events"; "count"; "absolute_percent"; "relative_percent"].

(** [res[gate_id]['events']]. On an outcome record, [res[gate_id]] is one of
    its fields when [gate_id] is a field name: subscripting a NumPy array or
    scalar by a string is an [IndexError], subscripting a string, a tuple or
    [None] is a [TypeError]. *)
Definition sub_events_of (g_id : string) (res : raw_result)
    : result indices_value :=
  match res with
  | Simple r =>
      if bool_decide (g_id ∈ numpy_keys) then Raise IndexError
      else if bool_decide (g_id ∈ pd_read_keys) then Raise TypeError
      else Raise KeyError
  | Quad subs =>
      match dict_get g_id subs with
      | Some r => Ok (Events (res_events r))
      | None => Raise KeyError
      end
  end.

Definition get_gate_indices (g_id : string) (g_path : option path_arg)
    : M indices_value :=
  lut ← attr _gate_lut;
  entry ← lift (match lut !! g_id with
                | Some e => Ok e
                | None => Raise KeyError
                end);
  let gate_paths := paths entry in
  g_path ← (if decide (1 < length gate_paths) then
              match g_path with
              | None => raise (ValueError ambiguous_msg)
              | Some (ArgList ids) => mret (PStr (String.concat "/" ids))
              | Some (ArgKey k) => mret k
              end
            else
              match gate_paths with
              | p :: _ => mret p
              | [] => raise IndexError
              end);
  rep ← attr report;
  sid ← attr sample_id;
  raw ← attr _raw_results;
  let gate_data := select_rows sid g_id rep in
  let quad_parent_values : gset (option string) :=
    list_to_set (quadrant_parent <$> (columns <$> gate_data)) in
  if decide (size quad_parent_values = 1 ∧ None ∈ quad_parent_values) then
    res ← lift (dict_index (g_id, g_path) raw);
    lift (events_of res)
  else if decide (size quad_parent_values = 1) then
    (* [quad_parent_values.pop()]; no key of the raw results has [None]
       as its gate id, and [pop] on an empty set is a [KeyError] too *)
    match elements quad_parent_values with
    | Some quad_parent :: _ =>
        res ← lift (dict_index (quad_parent, g_path) raw);
        lift (sub_events_of g_id res)
    | None :: _ => raise KeyError
    | [] => raise KeyError
    end
  else raise (ValueError (multiple_parents_msg g_id)).

(** The common body of the three id-only accessors, reading column [col]. *)
Definition get_column {A : Type} (col : report_row → A) (g_id : string) : M A :=
  rep ← attr report;
  sid ← attr sample_id;
  let results := select_rows sid g_id rep in
  if decide (1 < length results) then
    raise (NotImplementedError not_implemented_msg)
  else
    match results with
    | row :: _ => mret (col row)
    | [] => raise IndexError
    end.

Definition get_gate_count (g_id : string) : M Z :=
  get_column (λ row, count row) g_id.

Definition get_gate_absolute_percent (g_id : string) : M Q :=
  get_column (λ row, absolute_percent row) g_id.

Definition get_gate_relative_percent (g_id : string) : M Q :=
  get_column (λ row, relative_percent row) g_id.


(** The pure reading of a method call: what it returns or raises. *)
Definition call {A : Type} (m : M A) (self : GatingResults) : result A :=
  (m self).1.

(** A computation that leaves [self] as it found it. *)
Definition read_only {A : Type} (m : M A) : Prop :=
  ∀ self, (m self).2 = self.

(** Sequences of queries on one instance. *)
Inductive query :=
  | GetGateIndices (g_id : string) (g_path : option path_arg)
  | GetGateCount (g_id : string)
  | GetGateAbsolutePercent (g_id : string)
  | GetGateRelativePercent (g_id : string).

Inductive answer :=
  | Indices (r : result indices_value)
  | Count (r : result Z)
  | Percent (r : result Q).

Definition run_query (q : query) (self : GatingResults)
    : answer * GatingResults :=
  match q with
  | GetGateIndices g p => prod_map Indices id (get_gate_indices g p self)
  | GetGateCount g => prod_map Count id (get_gate_count g self)
  | GetGateAbsolutePercent g =>
      prod_map Percent id (get_gate_absolute_percent g self)
  | GetGateRelativePercent g =>
      prod_map Percent id (get_gate_relative_percent g self)
  end.

Fixpoint run_queries (qs : list query) (self : GatingResults)
    : list answer * GatingResults :=
  match qs with
  | [] => ([], self)
  | q :: qs' =>
      let (a, self') := run_query q self in
      let (answers, self'') := run_queries qs' self' in
      (a :: answers, self'')
  end.

(** ** What the raw results hold

    An occurrence of a gate id: the gate of a simple record under its key,
    or a quadrant of a quadrant gate under the key of the quadrant gate.
    A gate id occurs at as many paths as it has occurrences: the lookup
    table lists the path of each. *)

Record occurrence := {
  occ_id : string;
  occ_path : pathkey;
  occ_quad : option string;
  occ_res : res_dict
}.

Definition occurrences_of_item (item : (string * pathkey) * raw_result)
    : list occurrence :=
  match item.2 with
  | Simple r =>
      [ {| occ_id := item.1.1; occ_path := item.1.2;
           occ_quad := None; occ_res := r |} ]
  | Quad subs =>
      (λ sub : string * res_dict,
         {| occ_id := sub.1; occ_path := item.1.2;
            occ_quad := Some item.1.1; occ_res := sub.2 |}) <$> subs
  end.

Definition occurrences (raw : raw_results) : list occurrence :=
  raw ≫= occurrences_of_item.

Definition occurrences_of (g_id : string) (raw : raw_results)
    : list occurrence :=
  filter (λ o, occ_id o = g_id) (occurrences raw).

(** The occurrences of a gate id whose record is of sample [sid]. *)
Definition sample_occurrences (sid g_id : string) (raw : raw_results)
    : list occurrence :=
  filter (λ o, res_sample (occ_res o) = sid) (occurrences_of g_id raw).

(** The report row the specification asks for an occurrence: the fields of
    its record, its id, the quadrant gate it belongs to if any (null for a
    gate of its own), and the length of its gate path as level. *)
Definition spec_row (o : occurrence) : report_row :=
  {| columns :=
       {| sample := res_sample (occ_res o);
          gate_path := res_gate_path (occ_res o);
          parent := res_parent (occ_res o);
          gate_id := occ_id o;
          gate_type := res_gate_type (occ_res o);
          count := res_count (occ_res o);
          absolute_percent := res_absolute_percent (occ_res o);
          relative_percent := res_relative_percent (occ_res o);
          quadrant_parent := occ_quad o |};
     level := length (res_gate_path (occ_res o)) |}.

(** The paths the lookup table has for a gate id. *)
Definition paths_of (g_id : string) (lut : gmap string lut_entry)
    : list pathkey :=
  match lut !! g_id with
  | Some e => paths e
  | None => []
  end.

Definition lut_nonempty (lut : gmap string lut_entry) : Prop :=
  ∀ g e, lut !! g = Some e → paths e ≠ [].

(** The set [get_gate_indices] builds from the report rows that match a
    gate id: their distinct [quadrant_parent] values. *)
Definition quad_parent_values (self : GatingResults) (g_id : string)
    : gset (option string) :=
  list_to_set (quadrant_parent <$>
    (columns <$> select_rows (sample_id self) g_id (report self))).

(** The key a supplied [gate_path] stands for: a list is joined with
    slashes, a string (or a tuple) is taken as it is. *)
Definition denotes (arg : path_arg) (p : pathkey) : Prop :=
  match arg with
  | ArgList ids => p = PStr (String.concat "/" ids)
  | ArgKey k => p = k
  end.

(** The path [get_gate_indices] looks the raw results up with. *)
Definition resolved (gate_paths : list pathkey) (g_path : option path_arg)
    (p : pathkey) : Prop :=
  if decide (1 < length gate_paths) then
    match g_path with
    | None => False
    | Some arg => denotes arg p
    end
  else head gate_paths = Some p.

(** ** Well-formed raw results *)

(** Quadrant dicts are told from outcome records by the absence of an
    "events" key: no quadrant is named "events". *)
Definition quadrants_typed (raw : raw_results) : Prop :=
  Forall (λ item, has_events item.2 = true → ∃ r, item.2 = Simple r) raw.

(** Python dicts: no key twice, in the raw results and in quadrant dicts. *)
Definition is_dict {K V : Type} (d : list (K * V)) : Prop :=
  NoDup (dict_keys d).

Definition dicts (raw : raw_results) : Prop :=
  is_dict raw ∧
  Forall (λ item, match item.2 with
                  | Simple _ => True
                  | Quad subs => is_dict subs
                  end) raw.

(** The records are all of the sample the results are for: a Results
    object owns the rows of exactly one sample. *)
Definition single_sample (raw : raw_results) (sid : string) : Prop :=
  Forall (λ o, res_sample (occ_res o) = sid) (occurrences raw).

(** [sum(events)]: the number of events in the gate. *)
Definition py_sum (a : list bool) : Z :=
  foldr (λ b acc, (Z.b2z b + acc)%Z) 0%Z a.

(** Modelled from the spec: the engine that produces the outcome records
    (the Strategy) is not among the sources; step 4 of its [evaluate] sets
    the count of a record to the sum of its mask. *)
Definition counts_consistent (raw : raw_results) : Prop :=
  Forall (λ o, res_count (occ_res o) = py_sum (res_events (occ_res o)))
    (occurrences raw).

Global Instance Q_eq_dec : EqDecision Q.
Proof. solve_decision. Defined.

Global Instance res_dict_eq_dec : EqDecision res_dict.
Proof. solve_decision. Defined.

Global Instance occurrence_eq_dec : EqDecision occurrence.
Proof. solve_decision. Defined.

Global Instance quadrants_typed_dec raw : Decision (quadrants_typed raw).
Proof.
  apply Forall_dec; intros [k [r|subs]]; simpl.
  - left; eauto.
  - destruct (dict_has "events" subs).
    + right; intros H; destruct (H eq_refl) as [r Hr]; discriminate.
    + left; discriminate.
Defined.

Global Instance dicts_dec raw : Decision (dicts raw).
Proof.
  apply and_dec; [unfold is_dict; apply _|].
  apply Forall_dec; intros [k [r|subs]]; simpl;
    [apply _|unfold is_dict; apply _].
Defined.

Global Instance single_sample_dec raw sid : Decision (single_sample raw sid).
Proof. unfold single_sample; apply _. Defined.

Global Instance counts_consistent_dec raw : Decision (counts_consistent raw).
Proof. unfold counts_consistent; apply _. Defined.

Global Instance denotes_dec arg p : Decision (denotes arg p).
Proof. destruct arg; simpl; apply _. Defined.

(** ** The evaluation that produces the records *)

(** [d[k] = v]: the value of a key the dict has is replaced in place, a new
    key goes last. *)
Fixpoint dict_set {K V : Type} `{EqDecision K} (k : K) (v : V)
    (d : list (K * V)) : list (K * V) :=
  match d with
  | [] => [(k, v)]
  | (k', v') :: d' =>
      if decide (k = k') then (k, v) :: d' else (k', v') :: dict_set k v d'
  end.

(** Modelled from the spec: the predicate of a gate (the gates are not among
    the sources), opaque to the engine: a membership test, here on the index
    of an event, or for a quadrant gate one test per named quadrant. *)
Inductive gate_predicate :=
  | Membership (test : nat → bool)
  | Quadrants (tests : list (string * (nat → bool))).

(** Modelled from the spec: a node of the gate tree as the evaluation engine
    sees it (the Strategy and its tree are not among the sources). The path
    lists the ancestors from "root" down to the parent. *)
Record gate_node := {
  node_id : string;
  node_path : list string;
  node_type : string;
  node_predicate : gate_predicate
}.

(** Modelled from the spec: what [evaluate] accumulates (its source is
    missing): the outcome records, and the division errors captured per
    gate. *)
Record evaluation := {
  records : raw_results;
  captured : list ((string * pathkey) * exn)
}.

Section Evaluate.

(** The floating-point arithmetic of the engine is left open:
    [percent count total] stands for what it computes for
    100 * count / total, and [undefined] for what a record holds in place of
    a relative percent that is not computed. *)
Context (percent : Z → Z → Q) (undefined : Q).
Context (sample_name : string) (event_count : nat).

(** Modelled from the spec: step 1 of [evaluate], whose source is missing;
    the candidate events of a gate are those its parent kept, all the events
    when the parent is the root. The path in a key is joined with slashes,
    the form [get_gate_indices] gives to a list of ancestor ids. *)
Definition candidate_mask (results : raw_results) (path : list string)
    : result (list bool) :=
  match last path, path with
  | Some parent_id, _ :: _ :: _ =>
      match dict_index (parent_id, PStr (String.concat "/" (removelast path)))
              results with
      | Ok (Simple r) => Ok (res_events r)
      | Ok (Quad _) => Raise KeyError
      | Raise e => Raise e
      end
  | _, _ => Ok (replicate event_count true)
  end.

(** Modelled from the spec: steps 3 and 4 of [evaluate] (the source is
    missing) for one membership test: the mask over the whole sample, false
    outside the candidates; the count, which is the sum of the mask; the
    absolute percent; and the relative percent, which is not computed when
    the parent kept no event. *)
Definition outcome_record (path : list string) (gate_type : string)
    (candidates : list bool) (test : nat → bool) : res_dict :=
  let mask := zip_with andb candidates (test <$> seq 0 event_count) in
  let cnt := py_sum mask in
  let parent_count := py_sum candidates in
  {| res_sample := sample_name;
     res_gate_path := path;
     res_parent :=
       match path with
       | _ :: _ :: _ => last path
       | _ => None
       end;
     res_gate_type := gate_type;
     res_count := cnt;
     res_absolute_percent := percent cnt (Z.of_nat event_count);
     res_relative_percent :=
       if decide (parent_count = 0%Z) then undefined
       else percent cnt parent_count;
     res_events := mask |}.

(** Modelled from the spec: the key of the records of a node in step 5 of
    [evaluate] (the source is missing): (gate id, gate path). *)
Definition gate_key (n : gate_node) : string * pathkey :=
  (node_id n, PStr (String.concat "/" (node_path n))).

(** Modelled from the spec: steps 1 to 5 of [evaluate] for one node (the
    source is missing): the record of the gate, or for a quadrant gate the
    mapping from the ids of its quadrants to their records, goes under the
    key of the node; a parent without events is a division by zero that is
    captured for the gate, and the evaluation goes on. *)
Definition evaluate_node (st : evaluation) (n : gate_node)
    : result evaluation :=
  match candidate_mask (records st) (node_path n) with
  | Raise e => Raise e
  | Ok candidates =>
      let record := outcome_record (node_path n) (node_type n) candidates in
      let value :=
        match node_predicate n with
        | Membership test => Simple (record test)
        | Quadrants tests =>
            Quad (foldl (λ subs q, dict_set q.1 (record q.2) subs) [] tests)
        end in
      Ok {| records := dict_set (gate_key n) value (records st);
            captured :=
              if decide (py_sum candidates = 0%Z)
              then captured st ++ [(gate_key n, ZeroDivisionError)]
              else captured st |}
  end.

(** Modelled from the spec: the loop of [evaluate] (the source is missing),
    over the nodes in topological order. *)
Fixpoint evaluate_nodes (st : evaluation) (nodes : list gate_node)
    : result evaluation :=
  match nodes with
  | [] => Ok st
  | n :: nodes' =>
      match evaluate_node st n with
      | Ok st' => evaluate_nodes st' nodes'
      | Raise e => Raise e
      end
  end.

(** Modelled from the spec: [evaluate(sample)] (the source is missing)
    returns the Results built from the accumulated records. *)
Definition evaluate (nodes : list gate_node) : result GatingResults :=
  match evaluate_nodes {| records := []; captured := [] |} nodes with
  | Ok st => __init__ (records st) sample_name
  | Raise e => Raise e
  end.

End Evaluate.

(** What the engine puts in a record, whatever the gate: the name of the
    sample, and the sum of the mask as count. *)
Definition engine_record (name : string) (r : res_dict) : Prop :=
  res_sample r = name ∧ res_count r = py_sum (res_events r).

Definition engine_item (name : string)
    (item : (string * pathkey) * raw_result) : Prop :=
  match item.2 with
  | Simple r => engine_record name r
  | Quad subs => is_dict subs ∧ Forall (λ sub, engine_record name sub.2) subs
  end.

Definition engine_results (name : string) (raw : raw_results) : Prop :=
  is_dict raw ∧ Forall (engine_item name) raw.

(** A tree for a sample of four events: the gate A under the root, and under
    A the quadrant gate Q with the quadrants pos and neg. *)
Definition demo_tree : list gate_node :=
  [ {| node_id := "A"; node_path := ["root"];
       node_type := "RectangleGate";
       node_predicate := Membership (λ i, bool_decide (i < 3)) |};
    {| node_id := "Q"; node_path := ["root"; "A"];
       node_type := "QuadrantGate";
       node_predicate :=
         Quadrants [ ("pos", λ i, bool_decide (i < 1));
                     ("neg", λ i, bool_decide (1 ≤ i)) ] |} ].


(** The integer nearest to a / b, the even one of the two on a tie. *)
Definition round_half_even (a b : Z) : Z :=
  let q := (a / b)%Z in
  match (2 * (a mod b) ?= b)%Z with
  | Lt => q
  | Gt => (q + 1)%Z
  | Eq => if Z.even q then q else (q + 1)%Z
  end.

(** a / b over 2 ^ e as a fraction of integers. *)
Definition scaled (a b e : Z) : Z * Z :=
  ((a * 2 ^ Z.max (- e) 0)%Z, (b * 2 ^ Z.max e 0)%Z).

(** The double nearest to a rational (IEEE 754 binary64, round to nearest,
    ties to even), for the positive rationals in the normal range; zero for
    the others, which no percentage of a count is. *)
Definition to_double (x : Q) : Q :=
  let a := Qnum x in
  let b := Z.pos (Qden x) in
  if (a <=? 0)%Z then 0%Q
  else
    let e0 := (Z.log2 a - Z.log2 b)%Z in
    let exponent :=
      if ((scaled a b e0).1 <? (scaled a b e0).2)%Z then (e0 - 1)%Z else e0 in
    let ulp := (exponent - 52)%Z in
    Qred (inject_Z (round_half_even (scaled a b ulp).1 (scaled a b ulp).2)
          * Qpower 2 ulp).

(** [(count / total) * 100] as the test computes it: the true division of
    two integers gives the double nearest to the quotient, and the product
    with 100 is rounded again. *)
Definition py_percent (cnt total : Z) : Q :=
  to_double (to_double (inject_Z cnt / inject_Z total) * 100).

(** ** Sample data *)

Definition outcome (path : list string) (par : option string) (ty : string)
    (cnt : Z) (abs rel : Q) (events : list bool) : res_dict :=
  {| res_sample := "data1.fcs";
     res_gate_path := path;
     res_parent := par;
     res_gate_type := ty;
     res_count := cnt;
     res_absolute_percent := abs;
     res_relative_percent := rel;
     res_events := events |}.

(** Four events; gate B is used under A and under C, and the quadrant gate
    Q under A has the quadrants pos and neg. *)
Definition b_under_a : res_dict :=
  outcome ["root"; "A"] (Some "A") "PolygonGate" 2 50 (200 # 3)
    [true; true; false; false].

Definition b_under_c : res_dict :=
  outcome ["root"; "C"] (Some "C") "PolygonGate" 1 25 50
    [false; true; false; false].

Definition q_pos : res_dict :=
  outcome ["root"; "A"] (Some "A") "QuadrantGate" 1 25 (100 # 3)
    [true; false; false; false].

Definition q_neg : res_dict :=
  outcome ["root"; "A"] (Some "A") "QuadrantGate" 2 50 (200 # 3)
    [false; true; true; false].

Definition reused_raw : raw_results :=
  [ (("A", PStr "root"),
     Simple (outcome ["root"] None "RectangleGate" 3 75 75
               [true; true; true; false]));
    (("B", PStr "root/A"), Simple b_under_a);
    (("C", PStr "root"),
     Simple (outcome ["root"] None "RectangleGate" 2 50 50
               [false; true; false; true]));
    (("B", PStr "root/C"), Simple b_under_c);
    (("Q", PStr "root/A"), Quad [("pos", q_pos); ("neg", q_neg)]) ].

(** The occurrence of B under A, and of the quadrant neg. *)
Definition b_under_a_occurrence : occurrence :=
  {| occ_id := "B"; occ_path := PStr "root/A";
     occ_quad := None; occ_res := b_under_a |}.

Definition q_neg_occurrence : occurrence :=
  {| occ_id := "neg"; occ_path := PStr "root/A";
     occ_quad := Some "Q"; occ_res := q_neg |}.

(** Two events; the id pos names a gate under the root and a quadrant of
    the quadrant gate Q under A. *)
Definition pos_gate : res_dict :=
  outcome ["root"] None "RectangleGate" 1 50 50 [true; false].

Definition clash_raw : raw_results :=
  [ (("A", PStr "root"),
     Simple (outcome ["root"] None "RectangleGate" 2 100 100 [true; true]));
    (("pos", PStr "root"), Simple pos_gate);
    (("Q", PStr "root/A"),
     Quad [ ("pos", outcome ["root"; "A"] (Some "A") "QuadrantGate" 1 50 50
                      [false; true]);
            ("neg", outcome ["root"; "A"] (Some "A") "QuadrantGate" 1 50 50
                      [true; false]) ]) ].

(** ** More on the report and the queries *)

(** Not after, in the order of the sort of the report. *)
Definition row_le (a b : report_row) : Prop := row_compare a b ≠ Gt.

(** The keys of an outcome record. *)
Definition res_dict_keys : list string := "events" :: pd_read_keys.

(** The key [get_gate_indices] makes of a supplied [gate_path] when the
    gate id has more than one path. *)
Definition key_of_arg (arg : path_arg) : pathkey :=
  match arg with
  | ArgList ids => PStr (String.concat "/" ids)
  | ArgKey k => k
  end.

(** What [get_gate_indices] fetches from the raw results with path [p] when
    the rows of the gate id have the one quadrant parent [qp]. *)
Definition fetch (raw : raw_results) (g_id : string) (p : pathkey)
    (qp : option string) : result indices_value :=
  match qp with
  | None =>
      match dict_index (g_id, p) raw with
      | Ok res => events_of res
      | Raise ex => Raise ex
      end
  | Some q =>
      match dict_index (q, p) raw with
      | Ok res => sub_events_of g_id res
      | Raise ex => Raise ex
      end
  end.

(** A quadrant dict with a quadrant named "events" that lacks a quadrant
    named after one of the fields [_get_pd_result_dict] reads. *)
Definition unreadable (item : (string * pathkey) * raw_result) : Prop :=
  match item.2 with
  | Simple _ => False
  | Quad subs =>
      dict_has "events" subs = true
      ∧ forallb (λ k, dict_has k subs) pd_read_keys = false
  end.

Global Instance unreadable_dec item : Decision (unreadable item).
Proof. destruct item as [k [r|subs]]; unfold unreadable; simpl; apply _. Defined.

(** How an id-only accessor that reads column [col] answers, given the
    occurrences of the gate id among the records of the sample. *)
Definition column_answer {A : Type} (col : report_row → A)
    (occs : list occurrence) : result A :=
  match occs with
  | [] => Raise IndexError
  | [o] => Ok (col (spec_row o))
  | _ :: _ :: _ => Raise (NotImplementedError not_implemented_msg)
  end.

(** A quadrant gate with a quadrant named "events". *)
Definition events_raw : raw_results :=
  [ (("A", PStr "root"),
     Simple (outcome ["root"] None "RectangleGate" 3 75 75
               [true; true; true; false]));
    (("Q", PStr "root/A"), Quad [("events", q_pos); ("rest", q_neg)]) ].

(** A path kept as a string, not as a tuple. *)
Definition is_string_path (p : pathkey) : Prop :=
  match p with
  | PStr _ => True
  | PTuple _ => False
  end.

Global Instance is_string_path_dec p : Decision (is_string_path p).
Proof. destruct p; simpl; apply _. Defined.

(** The raw results of [reused_raw] with the first two records swapped. *)
Definition swapped_raw : raw_results :=
  match reused_raw with
  | a :: b :: l => b :: a :: l
  | l => l
  end.

(** * Properties *)

(** ** Dicts *)

Section DictFacts.
Context {K V : Type} `{EqDecision K}.
Implicit Types (d : list (K * V)) (k : K) (v : V).

Lemma dict_get_elem_of d k v : dict_get k d = Some v → (k, v) ∈ d.
Proof.
  induction d as [|[k' v'] d IH]; simpl; [done|].
  case_decide as Hk.
  - intros [= ->]. subst. left.
  - intros Hg. right. auto.
Qed.

Lemma dict_get_None d k : dict_get k d = None ↔ k ∉ dict_keys d.
Proof.
  unfold dict_keys. induction d as [|[k' v'] d IH]; simpl.
  - split; [intros _; apply not_elem_of_nil|done].
  - rewrite not_elem_of_cons. case_decide as Hk.
    + split; [done|]. intros [Hne _]. by destruct Hne.
    + rewrite IH. split; [by split|by intros [_ ?]].
Qed.

Lemma dict_get_Some d k v : is_dict d → (k, v) ∈ d → dict_get k d = Some v.
Proof.
  unfold is_dict, dict_keys.
  induction d as [|[k' v'] d IH]; simpl;
    [intros _ H'; by apply elem_of_nil in H'|].
  rewrite NoDup_cons. intros [Hk Hd] Hin.
  apply elem_of_cons in Hin as [[= <- <-]|Hin].
  - by rewrite decide_True.
  - rewrite decide_False; [by apply IH|].
    intros <-. apply Hk. apply list_elem_of_fmap. by exists (k, v).
Qed.
End DictFacts.

(** ** Construction *)

Lemma paths_of_lut_add g p lut gid :
  paths_of gid (lut_add g p lut)
  = paths_of gid lut ++ (if decide (g = gid) then [p] else []).
Proof.
  unfold paths_of, lut_add.
  destruct (decide (g = gid)) as [->|Hne].
  - destruct (lut !! gid) as [e|] eqn:He; by rewrite lookup_insert_eq.
  - rewrite app_nil_r.
    destruct (lut !! g) as [e|] eqn:He; by rewrite lookup_insert_ne.
Qed.

Lemma lut_add_nonempty g p lut :
  lut_nonempty lut → lut_nonempty (lut_add g p lut).
Proof.
  intros Hl g' e'. unfold lut_add.
  destruct (lut !! g) as [e|] eqn:He;
    (destruct (decide (g = g')) as [->|Hne];
     [rewrite lookup_insert_eq; intros [= <-]; simpl; try done;
      by destruct (paths e)
     |rewrite lookup_insert_ne by done; apply Hl]).
Qed.

(** The inner loop over the quadrants of a quadrant gate. *)
Lemma foldl_process_sub g p subs st :
  let st' := foldl (process_sub g p) st subs in
  let occs := occurrences_of_item ((g, p), Quad subs) in
  add_level <$> pd_list st' = (add_level <$> pd_list st) ++ (spec_row <$> occs)
  ∧ (∀ gid, paths_of gid (lut st')
        = paths_of gid (lut st)
          ++ (occ_path <$> filter (λ o, occ_id o = gid) occs))
  ∧ (lut_nonempty (lut st) → lut_nonempty (lut st'))
  ∧ untyped_row st' = untyped_row st.
Proof.
  simpl. revert st. induction subs as [|[s r] subs IH]; intros st; simpl.
  - rewrite app_nil_r. split_and!; [done| |done|done].
    intros gid. by rewrite app_nil_r.
  - destruct (IH (process_sub g p st (s, r))) as (Hpd & Hlut & Hne & Hun).
    split_and!.
    + rewrite Hpd. simpl. rewrite fmap_app, <-app_assoc. done.
    + intros gid. rewrite Hlut. simpl. rewrite paths_of_lut_add.
      rewrite <-app_assoc. f_equal.
      unfold occurrences_of_item; simpl. rewrite filter_cons; simpl.
      by case_decide.
    + intros Hl. apply Hne. simpl. by apply lut_add_nonempty.
    + by rewrite Hun.
Qed.

Lemma process_item_untyped st item st' :
  process_item st item = Ok st' → untyped_row st' = false →
  untyped_row st = false.
Proof.
  destruct item as [[g p] [r|subs]]; simpl.
  - by intros [= <-].
  - destruct (dict_has "events" subs); simpl.
    + case_match; [|done]. by intros [= <-].
    + intros [= <-].
      by destruct (foldl_process_sub g p subs st) as (_ & _ & _ & ->).
Qed.

Lemma process_items_untyped raw : ∀ st st',
  process_items st raw = Ok st' → untyped_row st' = false →
  untyped_row st = false.
Proof.
  induction raw as [|item raw IH]; intros st st'; simpl; [by intros [= <-]|].
  destruct (process_item st item) as [st1|] eqn:H1; [|done].
  intros H2 Hun. eapply process_item_untyped; [done|]. by eapply IH.
Qed.

Lemma process_item_spec st item st' :
  process_item st item = Ok st' → untyped_row st' = false →
  (has_events item.2 = true → ∃ r, item.2 = Simple r)
  ∧ add_level <$> pd_list st'
    = (add_level <$> pd_list st) ++ (spec_row <$> occurrences_of_item item)
  ∧ (∀ gid, paths_of gid (lut st')
        = paths_of gid (lut st)
          ++ (occ_path <$>
                filter (λ o, occ_id o = gid) (occurrences_of_item item)))
  ∧ (lut_nonempty (lut st) → lut_nonempty (lut st')).
Proof.
  destruct item as [[g p] [r|subs]]; simpl.
  - intros [= <-]; simpl. intros Hun. split_and!.
    + eauto.
    + by rewrite fmap_app.
    + intros gid. rewrite paths_of_lut_add. unfold occurrences_of_item; simpl.
      rewrite filter_cons, filter_nil; simpl. by case_decide.
    + apply lut_add_nonempty.
  - destruct (dict_has "events" subs) eqn:Hev; simpl.
    + case_match; [|done]. intros [= <-]. done.
    + intros [= <-] Hun.
      destruct (foldl_process_sub g p subs st) as (Hpd & Hlut & Hne & _).
      split_and!; done.
Qed.

Lemma process_items_spec raw : ∀ st st',
  process_items st raw = Ok st' → untyped_row st' = false →
  quadrants_typed raw
  ∧ add_level <$> pd_list st'
    = (add_level <$> pd_list st) ++ (spec_row <$> occurrences raw)
  ∧ (∀ gid, paths_of gid (lut st')
        = paths_of gid (lut st)
          ++ (occ_path <$> filter (λ o, occ_id o = gid) (occurrences raw)))
  ∧ (lut_nonempty (lut st) → lut_nonempty (lut st')).
Proof.
  unfold occurrences, quadrants_typed.
  induction raw as [|item raw IH]; intros st st'; simpl.
  - intros [= <-] _. split_and!; [constructor| |intros gid|done].
    + by rewrite app_nil_r.
    + by rewrite app_nil_r.
  - destruct (process_item st item) as [st1|e] eqn:H1; [|done].
    intros H2 Hun.
    destruct (IH _ _ H2 Hun) as (Hq & Hpd & Hlut & Hne).
    pose proof (process_items_untyped _ _ _ H2 Hun) as Hun1.
    destruct (process_item_spec _ _ _ H1 Hun1) as (Hq1 & Hpd1 & Hlut1 & Hne1).
    split_and!.
    + by constructor.
    + rewrite Hpd, Hpd1, fmap_app, <-app_assoc. done.
    + intros gid.
      rewrite Hlut, Hlut1, filter_app, fmap_app, <-app_assoc. done.
    + auto.
Qed.

Lemma process_items_total raw : ∀ st,
  quadrants_typed raw →
  ∃ st', process_items st raw = Ok st' ∧ untyped_row st' = untyped_row st.
Proof.
  unfold quadrants_typed.
  induction raw as [|[[g p] res] raw IH]; intros st Hq; simpl; [eauto|].
  apply Forall_cons in Hq as [Hres Hq]. simpl in Hres.
  destruct res as [r|subs].
  - destruct (IH {| pd_list := pd_list st ++ [_get_pd_result_dict r g];
                    lut := lut_add g p (lut st);
                    untyped_row := untyped_row st |} Hq) as (st' & -> & Hun).
    eauto.
  - simpl in *. destruct (dict_has "events" subs); simpl.
    + destruct (Hres eq_refl) as [r Hr]; discriminate.
    + destruct (IH (foldl (process_sub g p) st subs) Hq) as (st' & -> & Hun).
      exists st'. split; [done|]. rewrite Hun.
      by destruct (foldl_process_sub g p subs st) as (_ & _ & _ & ->).
Qed.

Lemma insert_row_perm a l : insert_row a l ≡ₚ a :: l.
Proof.
  induction l as [|b l IH]; simpl; [done|].
  destruct (row_leb a b); [done|]. rewrite IH. apply Permutation_swap.
Qed.

Lemma sort_values_perm l : sort_values l ≡ₚ l.
Proof.
  unfold sort_values. induction l as [|a l IH]; simpl; [done|].
  by rewrite insert_row_perm, IH.
Qed.

(** What a constructed instance holds. *)
Lemma init_spec raw sid self :
  __init__ raw sid = Ok self →
  _raw_results self = raw ∧ sample_id self = sid
  ∧ quadrants_typed raw
  ∧ report self ≡ₚ spec_row <$> occurrences raw
  ∧ (∀ gid, paths_of gid (_gate_lut self) = occ_path <$> occurrences_of gid raw)
  ∧ lut_nonempty (_gate_lut self).
Proof.
  unfold __init__.
  destruct (process_items initial_state raw) as [st|e] eqn:Hp; [|done].
  destruct (untyped_row st) eqn:Hun; [done|].
  intros [= <-]; simpl.
  destruct (process_items_spec _ _ _ Hp Hun) as (Hq & Hpd & Hlut & Hne).
  split_and!; [done|done|done| | |].
  - rewrite sort_values_perm, Hpd. done.
  - intros gid. apply Hlut.
  - apply Hne. intros g e Hg. simpl in Hg. by rewrite lookup_empty in Hg.
Qed.

Lemma init_total raw sid :
  quadrants_typed raw → ∃ self, __init__ raw sid = Ok self.
Proof.
  intros Hq. unfold __init__.
  destruct (process_items_total raw initial_state Hq) as (st & -> & ->).
  simpl. eauto.
Qed.

Lemma lut_lookup_None raw sid self gid :
  __init__ raw sid = Ok self → occurrences_of gid raw = [] →
  _gate_lut self !! gid = None.
Proof.
  intros Hi Ho. destruct (init_spec _ _ _ Hi) as (_ & _ & _ & _ & Hlut & Hne).
  specialize (Hlut gid). rewrite Ho in Hlut. unfold paths_of in Hlut.
  destruct (_gate_lut self !! gid) as [e|] eqn:He; [|done].
  by destruct (Hne _ _ He).
Qed.

Lemma lut_lookup_Some raw sid self gid :
  __init__ raw sid = Ok self → occurrences_of gid raw ≠ [] →
  ∃ e, _gate_lut self !! gid = Some e
       ∧ paths e = occ_path <$> occurrences_of gid raw.
Proof.
  intros Hi Ho. destruct (init_spec _ _ _ Hi) as (_ & _ & _ & _ & Hlut & _).
  specialize (Hlut gid). unfold paths_of in Hlut.
  destruct (_gate_lut self !! gid) as [e|]; [eauto|].
  symmetry in Hlut. apply fmap_nil_inv in Hlut. done.
Qed.

(** ** The rows a query selects *)

Lemma filter_fmap_spec_row (P : report_row → Prop) `{∀ x, Decision (P x)}
    (l : list occurrence) :
  filter P (spec_row <$> l) = spec_row <$> filter (λ o, P (spec_row o)) l.
Proof.
  induction l as [|o l IH]; [done|].
  rewrite fmap_cons, !filter_cons, IH. by case_decide.
Qed.

Lemma select_rows_spec raw sid self gid :
  __init__ raw sid = Ok self →
  select_rows (sample_id self) gid (report self)
  ≡ₚ spec_row <$> sample_occurrences sid gid raw.
Proof.
  intros Hi. destruct (init_spec _ _ _ Hi) as (_ & -> & _ & Hrep & _).
  unfold select_rows, sample_occurrences, occurrences_of.
  rewrite Hrep, filter_fmap_spec_row, list_filter_filter. done.
Qed.

Lemma sample_occurrences_single raw sid gid :
  single_sample raw sid →
  sample_occurrences sid gid raw = occurrences_of gid raw.
Proof.
  unfold single_sample, sample_occurrences, occurrences_of.
  induction (occurrences raw) as [|o l IH]; [done|].
  intros [Ho Hl]%Forall_cons. rewrite filter_cons.
  case_decide; [|by rewrite IH].
  rewrite filter_cons, decide_True by done. by rewrite IH.
Qed.

Lemma select_rows_nil raw sid self gid :
  __init__ raw sid = Ok self → sample_occurrences sid gid raw = [] →
  select_rows (sample_id self) gid (report self) = [].
Proof.
  intros Hi Ho. pose proof (select_rows_spec _ _ _ gid Hi) as Hs.
  rewrite Ho in Hs. by apply Permutation_nil_r in Hs.
Qed.

Lemma select_rows_singleton raw sid self gid o :
  __init__ raw sid = Ok self → sample_occurrences sid gid raw = [o] →
  select_rows (sample_id self) gid (report self) = [spec_row o].
Proof.
  intros Hi Ho. pose proof (select_rows_spec _ _ _ gid Hi) as Hs.
  rewrite Ho in Hs. by apply Permutation_singleton_r in Hs.
Qed.

Lemma select_rows_length raw sid self gid :
  __init__ raw sid = Ok self →
  length (select_rows (sample_id self) gid (report self))
  = length (sample_occurrences sid gid raw).
Proof.
  intros Hi. rewrite (select_rows_spec _ _ _ gid Hi). by rewrite length_fmap.
Qed.

Lemma quad_parent_values_spec raw sid self gid :
  __init__ raw sid = Ok self →
  quad_parent_values self gid
  = list_to_set (occ_quad <$> sample_occurrences sid gid raw).
Proof.
  intros Hi. unfold quad_parent_values.
  rewrite (select_rows_spec _ _ _ gid Hi).
  f_equal. rewrite <-!list_fmap_compose. by apply list_fmap_ext.
Qed.

Lemma occurrences_of_elem gid raw o :
  o ∈ occurrences_of gid raw → o ∈ occurrences raw ∧ occ_id o = gid.
Proof. unfold occurrences_of. rewrite list_elem_of_filter. tauto. Qed.

Lemma size_list_to_set_le (l : list (option string)) :
  size (list_to_set l : gset (option string)) ≤ length l.
Proof.
  induction l as [|x l IH]; [by rewrite list_to_set_nil, size_empty|].
  rewrite list_to_set_cons. cbn [length].
  destruct (decide (x ∈ (list_to_set l : gset (option string)))) as [Hin|Hni].
  - replace ({[x]} ∪ list_to_set l) with (list_to_set l : gset (option string));
      [lia|].
    apply set_eq. intros y. rewrite elem_of_union, elem_of_singleton.
    split; [by right|]. by intros [->|?].
  - rewrite size_union, size_singleton; [lia|].
    intros y Hy%elem_of_singleton Hy'. by subst.
Qed.

Lemma list_to_set_uniform (l : list (option string)) qp :
  l ≠ [] → Forall (λ x, x = qp) l →
  (list_to_set l : gset (option string)) = {[ qp ]}.
Proof.
  intros Hne Hall. apply set_eq. intros x.
  rewrite elem_of_list_to_set, elem_of_singleton. split.
  - intros Hx. by apply (proj1 (Forall_forall _ _) Hall).
  - intros ->. destruct l as [|y l]; [done|].
    apply Forall_cons in Hall as [-> _]. left.
Qed.

(** An occurrence is found again where the queries look for it. *)
Lemma occurrence_lookup raw o :
  dicts raw → o ∈ occurrences raw →
  match occ_quad o with
  | None => dict_get (occ_id o, occ_path o) raw = Some (Simple (occ_res o))
  | Some q =>
      ∃ subs, dict_get (q, occ_path o) raw = Some (Quad subs)
              ∧ dict_get (occ_id o) subs = Some (occ_res o)
  end.
Proof.
  intros [Hd Hsub] Ho. unfold occurrences in Ho.
  apply list_elem_of_bind in Ho as ([[g p] res] & Ho & Hitem).
  unfold occurrences_of_item in Ho. simpl in Ho.
  destruct res as [r|subs].
  - apply list_elem_of_singleton in Ho as ->. simpl. by apply dict_get_Some.
  - apply list_elem_of_fmap in Ho as ([s r] & -> & Hs). simpl.
    exists subs. split; [by apply dict_get_Some|].
    apply dict_get_Some; [|done].
    by apply (proj1 (Forall_forall _ _) Hsub _ Hitem).
Qed.

Lemma stored_events raw o :
  dicts raw → o ∈ occurrences raw →
  match occ_quad o with
  | None =>
      match dict_index (occ_id o, occ_path o) raw with
      | Ok res => events_of res
      | Raise ex => Raise ex
      end
  | Some q =>
      match dict_index (q, occ_path o) raw with
      | Ok res => sub_events_of (occ_id o) res
      | Raise ex => Raise ex
      end
  end = Ok (Events (res_events (occ_res o))).
Proof.
  intros Hd Ho. pose proof (occurrence_lookup _ _ Hd Ho) as Hl.
  unfold dict_index. destruct (occ_quad o) as [q|].
  - destruct Hl as (subs & -> & Hs). simpl. by rewrite Hs.
  - by rewrite Hl.
Qed.

(** ** The queries, step by step *)

Ltac run_monad :=
  cbv beta iota zeta delta [mbind M_bind attr lift raise mret M_ret fst snd].

Ltac unfold_accessor :=
  unfold call, get_gate_count, get_gate_absolute_percent,
    get_gate_relative_percent, get_column; run_monad.

(** The three branches on the quadrant parents, once there is one value. *)
Ltac one_parent qp :=
  rewrite size_singleton, elements_singleton;
  destruct qp as [?|];
  [ rewrite decide_False by (intros [_ Hn]; by apply elem_of_singleton in Hn);
    rewrite decide_True by done
  | rewrite decide_True by (split; [done|by apply elem_of_singleton]) ];
  run_monad; by destruct (dict_index _ _).

Lemma indices_one_parent self gid gp e p qp :
  _gate_lut self !! gid = Some e →
  resolved (paths e) gp p →
  quad_parent_values self gid = {[ qp ]} →
  call (get_gate_indices gid gp) self
  = match qp with
    | None =>
        match dict_index (gid, p) (_raw_results self) with
        | Ok res => events_of res
        | Raise ex => Raise ex
        end
    | Some q =>
        match dict_index (q, p) (_raw_results self) with
        | Ok res => sub_events_of gid res
        | Raise ex => Raise ex
        end
    end.
Proof.
  intros He Hr HS. unfold resolved in Hr.
  unfold call, get_gate_indices. run_monad. rewrite He. run_monad.
  destruct (decide (1 < length (paths e))) as [Hlen|Hlen].
  - destruct gp as [[ids|k]|]; [| |done]; simpl in Hr; subst p; run_monad;
      fold (quad_parent_values self gid); rewrite HS; one_parent qp.
  - destruct (paths e) as [|p' ps]; [done|]. injection Hr as ->. run_monad.
    fold (quad_parent_values self gid); rewrite HS; one_parent qp.
Qed.

Lemma indices_not_one_parent self gid gp e :
  _gate_lut self !! gid = Some e →
  paths e ≠ [] →
  (1 < length (paths e) → gp ≠ None) →
  size (quad_parent_values self gid) ≠ 1 →
  call (get_gate_indices gid gp) self
  = Raise (ValueError (multiple_parents_msg gid)).
Proof.
  intros He Hne Hgp HS.
  unfold call, get_gate_indices. run_monad. rewrite He. run_monad.
  destruct (decide (1 < length (paths e))) as [Hlen|Hlen].
  - destruct gp as [[ids|k]|]; [| |by destruct (Hgp Hlen)];
      run_monad; fold (quad_parent_values self gid);
      rewrite decide_False by (by intros [? _]);
      by rewrite decide_False.
  - destruct (paths e) as [|p ps]; [done|]. run_monad.
    fold (quad_parent_values self gid).
    rewrite decide_False by (by intros [? _]).
    by rewrite decide_False.
Qed.

Lemma messages_differ gid : ambiguous_msg ≠ multiple_parents_msg gid.
Proof. unfold ambiguous_msg, multiple_parents_msg. simpl. discriminate. Qed.

Lemma indices_multiple_parents_inv self gid gp :
  call (get_gate_indices gid gp) self
  = Raise (ValueError (multiple_parents_msg gid)) →
  ∃ e, _gate_lut self !! gid = Some e
       ∧ size (quad_parent_values self gid) ≠ 1.
Proof.
  unfold call, get_gate_indices. run_monad.
  destruct (_gate_lut self !! gid) as [e|]; run_monad; [|done].
  intros H. exists e. split; [done|]. intros HS. revert H.
  destruct (decide (1 < length (paths e))) as [Hlen|Hlen];
    [destruct gp as [[ids|k]|]|destruct (paths e) as [|p ps]];
    run_monad.
  3: by intros [= Hm%messages_differ].
  3: done.
  all: fold (quad_parent_values self gid).
  all: destruct (decide (size (quad_parent_values self gid) = 1
                         ∧ None ∈ quad_parent_values self gid)) as [H1|H1];
    [|rewrite decide_True by done;
      destruct (elements (quad_parent_values self gid)) as [|[q|] ?]];
    try done.
  all: unfold dict_index; destruct (dict_get _ _) as [[r|subs]|];
    run_monad; try done; unfold events_of, sub_events_of.
  all: repeat case_match; done.
Qed.

(** ** The queries on a constructed instance *)

Lemma indices_unknown raw sid self gid gp :
  __init__ raw sid = Ok self → occurrences_of gid raw = [] →
  call (get_gate_indices gid gp) self = Raise KeyError.
Proof.
  intros Hi Ho. unfold call, get_gate_indices. run_monad.
  by rewrite (lut_lookup_None _ _ _ _ Hi Ho).
Qed.

Lemma indices_ambiguous raw sid self gid :
  __init__ raw sid = Ok self → 1 < length (occurrences_of gid raw) →
  call (get_gate_indices gid None) self = Raise (ValueError ambiguous_msg).
Proof.
  intros Hi Hlen.
  destruct (lut_lookup_Some _ _ _ gid Hi) as (e & He & Hp).
  { intros Hnil. rewrite Hnil in Hlen. simpl in Hlen. lia. }
  unfold call, get_gate_indices. run_monad. rewrite He. run_monad.
  rewrite Hp, length_fmap. by rewrite decide_True.
Qed.

Lemma indices_single raw sid self gid o gp :
  __init__ raw sid = Ok self →
  dicts raw → single_sample raw sid →
  occurrences_of gid raw = [o] →
  call (get_gate_indices gid gp) self = Ok (Events (res_events (occ_res o))).
Proof.
  intros Hi Hd Hs Ho.
  destruct (init_spec _ _ _ Hi) as (Hraw & _).
  destruct (lut_lookup_Some _ _ _ gid Hi) as (e & He & Hp); [by rewrite Ho|].
  rewrite Ho in Hp. simpl in Hp.
  assert (o ∈ occurrences_of gid raw) as [Hin Hid]%occurrences_of_elem
    by (rewrite Ho; left).
  rewrite (indices_one_parent self gid gp e (occ_path o) (occ_quad o));
    [|done| |].
  - rewrite Hraw, <-Hid. by apply stored_events.
  - unfold resolved. rewrite Hp. by rewrite decide_False by (simpl; lia).
  - rewrite (quad_parent_values_spec _ _ _ _ Hi).
    rewrite sample_occurrences_single, Ho by done.
    simpl. by rewrite (right_id_L ∅ (∪)).
Qed.

Lemma indices_with_path raw sid self gid o arg :
  __init__ raw sid = Ok self →
  dicts raw → single_sample raw sid →
  1 < length (occurrences_of gid raw) →
  o ∈ occurrences_of gid raw →
  Forall (λ o', occ_quad o' = occ_quad o) (occurrences_of gid raw) →
  denotes arg (occ_path o) →
  call (get_gate_indices gid (Some arg)) self
  = Ok (Events (res_events (occ_res o))).
Proof.
  intros Hi Hd Hs Hlen Ho Hall Harg.
  destruct (init_spec _ _ _ Hi) as (Hraw & _).
  destruct (lut_lookup_Some _ _ _ gid Hi) as (e & He & Hp).
  { intros Hnil. rewrite Hnil in Ho. by apply elem_of_nil in Ho. }
  pose proof Ho as [Hin Hid]%occurrences_of_elem.
  rewrite (indices_one_parent self gid _ e (occ_path o) (occ_quad o));
    [|done| |].
  - rewrite Hraw, <-Hid. by apply stored_events.
  - unfold resolved. rewrite Hp, length_fmap. by rewrite decide_True.
  - rewrite (quad_parent_values_spec _ _ _ _ Hi).
    rewrite sample_occurrences_single by done.
    apply list_to_set_uniform; [|by apply Forall_fmap].
    intros Hnil%fmap_nil_inv. rewrite Hnil in Ho. by apply elem_of_nil in Ho.
Qed.

Lemma column_unknown {A} (col : report_row → A) raw sid self gid :
  __init__ raw sid = Ok self → occurrences_of gid raw = [] →
  call (get_column col gid) self = Raise IndexError.
Proof.
  intros Hi Ho.
  assert (select_rows (sample_id self) gid (report self) = []) as Hs.
  { apply (select_rows_nil _ _ _ _ Hi). unfold sample_occurrences.
    by rewrite Ho. }
  unfold_accessor. by rewrite Hs.
Qed.

Lemma column_ambiguous {A} (col : report_row → A) raw sid self gid :
  __init__ raw sid = Ok self → single_sample raw sid →
  1 < length (occurrences_of gid raw) →
  call (get_column col gid) self
  = Raise (NotImplementedError not_implemented_msg).
Proof.
  intros Hi Hs Hlen.
  assert (1 < length (select_rows (sample_id self) gid (report self))) as Hl.
  { rewrite (select_rows_length _ _ _ _ Hi).
    by rewrite sample_occurrences_single. }
  unfold_accessor. by rewrite decide_True.
Qed.

Lemma select_rows_single raw sid self gid o :
  __init__ raw sid = Ok self → single_sample raw sid →
  occurrences_of gid raw = [o] →
  select_rows (sample_id self) gid (report self) = [spec_row o].
Proof.
  intros Hi Hs Ho. apply (select_rows_singleton _ _ _ _ _ Hi).
  by rewrite sample_occurrences_single.
Qed.

Lemma column_single {A} (col : report_row → A) raw sid self gid o :
  __init__ raw sid = Ok self → single_sample raw sid →
  occurrences_of gid raw = [o] →
  call (get_column col gid) self = Ok (col (spec_row o)).
Proof.
  intros Hi Hs Ho. unfold_accessor.
  rewrite (select_rows_single _ _ _ _ _ Hi Hs Ho).
  by rewrite decide_False by (simpl; lia).
Qed.

(** ** The queries only read *)

Section ReadOnly.
Context {A B : Type}.

Lemma read_only_ret (a : A) : read_only (mret a).
Proof. done. Qed.

Lemma read_only_raise (e : exn) : read_only (raise e : M A).
Proof. done. Qed.

Lemma read_only_attr (f : GatingResults → A) : read_only (attr f).
Proof. done. Qed.

Lemma read_only_lift (r : result A) : read_only (lift r).
Proof. done. Qed.

Lemma read_only_bind (m : M A) (k : A → M B) :
  read_only m → (∀ a, read_only (k a)) → read_only (m ≫= k).
Proof.
  intros Hm Hk self. unfold mbind, M_bind.
  specialize (Hm self). destruct (m self) as [[a|e] self']; simpl in *; subst.
  - apply Hk.
  - done.
Qed.
End ReadOnly.

Ltac read_only_step :=
  first
    [ apply read_only_bind; [|intros ?]
    | apply read_only_ret | apply read_only_raise
    | apply read_only_attr | apply read_only_lift
    | case_decide | case_match ].

Lemma get_gate_indices_read_only gid gp : read_only (get_gate_indices gid gp).
Proof. unfold get_gate_indices. repeat read_only_step. Qed.

Lemma get_column_read_only {A} (col : report_row → A) gid :
  read_only (get_column col gid).
Proof. unfold get_column. repeat read_only_step. Qed.

Lemma run_query_read_only q self : (run_query q self).2 = self.
Proof.
  destruct q; simpl.
  - apply get_gate_indices_read_only.
  - apply (get_column_read_only (λ row, count row)).
  - apply (get_column_read_only (λ row, absolute_percent row)).
  - apply (get_column_read_only (λ row, relative_percent row)).
Qed.

(** ** The records of the evaluation *)

Section DictSet.
Context {K V : Type} `{EqDecision K}.

Lemma dict_set_keys (d : list (K * V)) k v x :
  x ∈ dict_keys (dict_set k v d) → x = k ∨ x ∈ dict_keys d.
Proof.
  unfold dict_keys. induction d as [|[k' v'] d IH]; simpl.
  - intros ->%list_elem_of_singleton. by left.
  - destruct (decide (k = k')) as [->|Hne]; simpl.
    + rewrite !elem_of_cons. tauto.
    + rewrite !elem_of_cons. intros [->|Hx]; [tauto|].
      destruct (IH Hx); tauto.
Qed.

Lemma dict_set_is_dict (d : list (K * V)) k v :
  is_dict d → is_dict (dict_set k v d).
Proof.
  unfold is_dict. induction d as [|[k' v'] d IH]; simpl.
  - intros _. apply NoDup_singleton.
  - intros [Hni Hd]%NoDup_cons.
    destruct (decide (k = k')) as [->|Hne]; simpl.
    + by apply NoDup_cons.
    + apply NoDup_cons. split; [|by apply IH].
      intros [->|Hin]%dict_set_keys; done.
Qed.

Lemma dict_set_Forall (P : K * V → Prop) (d : list (K * V)) k v :
  Forall P d → P (k, v) → Forall P (dict_set k v d).
Proof.
  intros Hd Hkv. induction Hd as [|[k' v'] d Hx Hd IH]; simpl.
  - by repeat constructor.
  - destruct (decide (k = k')); by constructor.
Qed.
End DictSet.

Lemma quadrant_records_engine name (record : (nat → bool) → res_dict)
    (tests : list (string * (nat → bool))) :
  (∀ test, engine_record name (record test)) →
  ∀ subs : list (string * res_dict),
    is_dict subs → Forall (λ sub, engine_record name sub.2) subs →
    is_dict (foldl (λ subs q, dict_set q.1 (record q.2) subs) subs tests)
    ∧ Forall (λ sub, engine_record name sub.2)
        (foldl (λ subs q, dict_set q.1 (record q.2) subs) subs tests).
Proof.
  intros Hrec. induction tests as [|[q test] tests IH]; intros subs Hd Hall;
    simpl; [done|].
  apply IH; [by apply dict_set_is_dict|].
  apply dict_set_Forall; [done|]. apply Hrec.
Qed.

Lemma engine_results_nil name : engine_results name [].
Proof. split; [apply NoDup_nil_2|constructor]. Qed.

Lemma evaluate_node_engine percent undefined name n st node st' :
  engine_results name (records st) →
  evaluate_node percent undefined name n st node = Ok st' →
  engine_results name (records st').
Proof.
  intros [Hd Hall]. unfold evaluate_node.
  destruct (candidate_mask n (records st) (node_path node)) as [cands|];
    [|done].
  intros [= <-]. cbn [records].
  split; [by apply dict_set_is_dict|].
  apply dict_set_Forall; [done|].
  unfold engine_item. cbn [snd].
  destruct (node_predicate node) as [test|tests].
  - done.
  - apply (quadrant_records_engine name
             (outcome_record percent undefined name n (node_path node)
                (node_type node) cands) tests); [done| |constructor].
    apply NoDup_nil_2.
Qed.

Lemma evaluate_nodes_engine percent undefined name n nodes : ∀ st st',
  engine_results name (records st) →
  evaluate_nodes percent undefined name n st nodes = Ok st' →
  engine_results name (records st').
Proof.
  induction nodes as [|node nodes IH]; intros st st' Heng; simpl.
  - by intros [= <-].
  - destruct (evaluate_node percent undefined name n st node) as [st1|]
      eqn:Hnode; [|done].
    apply IH. by apply (evaluate_node_engine _ _ _ _ _ _ _ Heng Hnode).
Qed.

Lemma engine_results_wf name raw :
  engine_results name raw →
  dicts raw ∧ single_sample raw name ∧ counts_consistent raw.
Proof.
  intros [Hd Hall]. split_and!.
  - split; [done|]. eapply Forall_impl; [exact Hall|].
    intros [k [r|subs]]; unfold engine_item; simpl; [done|tauto].
  - unfold single_sample, occurrences. apply Forall_forall. intros o Ho.
    apply list_elem_of_bind in Ho as (item & Ho & Hitem).
    rewrite Forall_forall in Hall. specialize (Hall _ Hitem).
    unfold engine_item in Hall. unfold occurrences_of_item in Ho.
    destruct (item.2) as [r|subs].
    + apply list_elem_of_singleton in Ho as ->. apply Hall.
    + apply list_elem_of_fmap in Ho as (sub & -> & Hsub).
      destruct Hall as [_ Hsubs]. rewrite Forall_forall in Hsubs.
      apply (Hsubs _ Hsub).
  - unfold counts_consistent, occurrences. apply Forall_forall. intros o Ho.
    apply list_elem_of_bind in Ho as (item & Ho & Hitem).
    rewrite Forall_forall in Hall. specialize (Hall _ Hitem).
    unfold engine_item in Hall. unfold occurrences_of_item in Ho.
    destruct (item.2) as [r|subs].
    + apply list_elem_of_singleton in Ho as ->. apply Hall.
    + apply list_elem_of_fmap in Ho as (sub & -> & Hsub).
      destruct Hall as [_ Hsubs]. rewrite Forall_forall in Hsubs.
      apply (Hsubs _ Hsub).
Qed.

Lemma sum_is_count_when_consistent raw sid self gid o :
  __init__ raw sid = Ok self →
  dicts raw → single_sample raw sid → counts_consistent raw →
  occurrences_of gid raw = [o] →
  ∃ a c, call (get_gate_indices gid None) self = Ok (Events a)
         ∧ call (get_gate_count gid) self = Ok c
         ∧ py_sum a = c.
Proof.
  intros Hi Hd Hs Hc Ho.
  exists (res_events (occ_res o)), (res_count (occ_res o)). split_and!.
  - by apply (indices_single raw sid).
  - by apply (column_single (λ row, count row) raw sid self gid o).
  - assert (o ∈ occurrences_of gid raw) as [Hin _]%occurrences_of_elem
      by (rewrite Ho; left).
    unfold counts_consistent in Hc. rewrite Forall_forall in Hc.
    symmetry. apply (Hc _ Hin).
Qed.

(** ** The evaluation of the example tree *)






(** * The claims *)

Ltac by_decide := apply (bool_decide_unpack _); vm_compute; exact I.

(** C1 (as amended). For a gate id that occurs at more than one path and
    whose occurrences all have the same quadrant parent (all are gates of
    their own, or all are quadrants of quadrant gates of one id),
    [get_gate_indices] called with the path of one occurrence, as a list of
    ancestor ids or as one slash-delimited string, returns the membership
    vector of the record of that occurrence: the record under
    (gate id, path), or for a quadrant the record of the quadrant in the
    dict under (quadrant gate id, path). *)
Theorem path_qualified_indices raw sid self gid o arg :
  __init__ raw sid = Ok self →
  dicts raw → single_sample raw sid →
  1 < length (occurrences_of gid raw) →
  o ∈ occurrences_of gid raw →
  Forall (λ o', occ_quad o' = occ_quad o) (occurrences_of gid raw) →
  denotes arg (occ_path o) →
  call (get_gate_indices gid (Some arg)) self
  = Ok (Events (res_events (occ_res o)))
  ∧ match occ_quad o with
    | None => dict_get (gid, occ_path o) raw = Some (Simple (occ_res o))
    | Some q =>
        ∃ subs, dict_get (q, occ_path o) raw = Some (Quad subs)
                ∧ dict_get gid subs = Some (occ_res o)
    end.
Proof.
  intros Hi Hd Hs Hlen Ho Hall Harg. split.
  - by apply (indices_with_path raw sid).
  - pose proof Ho as [Hin <-]%occurrences_of_elem.
    by apply occurrence_lookup.
Qed.

(** C2. In the Results that the evaluation of a gate tree over a sample
    returns, whatever the tree, the sample and the arithmetic of the
    percentages, for every gate id that occurs at exactly one path (a gate
    or a quadrant of a quadrant gate) [get_gate_indices] and
    [get_gate_count] both return, and the sum of the membership vector is
    the count. *)
Theorem indices_sum_is_count percent undefined name n nodes self gid :
  evaluate percent undefined name n nodes = Ok self →
  length (paths_of gid (_gate_lut self)) = 1 →
  ∃ a c, call (get_gate_indices gid None) self = Ok (Events a)
         ∧ call (get_gate_count gid) self = Ok c
         ∧ py_sum a = c.
Proof.
  unfold evaluate.
  destruct (evaluate_nodes percent undefined name n
              {| records := []; captured := [] |} nodes) as [st|] eqn:Hev;
    [|done].
  intros Hi Hlen.
  assert (engine_results name (records st)) as Heng.
  { apply (evaluate_nodes_engine percent undefined name n nodes
             {| records := []; captured := [] |} st
             (engine_results_nil name) Hev). }
  destruct (engine_results_wf _ _ Heng) as (Hd & Hs & Hc).
  destruct (init_spec _ _ _ Hi) as (_ & _ & _ & _ & Hlut & _).
  rewrite Hlut, length_fmap in Hlen.
  destruct (occurrences_of gid (records st)) as [|o [|o' l]] eqn:Ho;
    simpl in Hlen; try lia.
  by apply (sum_is_count_when_consistent (records st) name self gid o).
Qed.

(** C3. [get_gate_count], [get_gate_absolute_percent] and
    [get_gate_relative_percent] raise the NotImplementedError on a gate id
    that occurs at more than one path; on a gate id that occurs at one
    path, one report row matches it and they return its count, its
    absolute percent and its relative percent. *)
Theorem id_only_accessors raw sid self gid :
  __init__ raw sid = Ok self →
  single_sample raw sid →
  (1 < length (occurrences_of gid raw) →
     call (get_gate_count gid) self
       = Raise (NotImplementedError not_implemented_msg)
     ∧ call (get_gate_absolute_percent gid) self
       = Raise (NotImplementedError not_implemented_msg)
     ∧ call (get_gate_relative_percent gid) self
       = Raise (NotImplementedError not_implemented_msg))
  ∧ (∀ o, occurrences_of gid raw = [o] →
     ∃ row, select_rows (sample_id self) gid (report self) = [row]
       ∧ row = spec_row o
       ∧ call (get_gate_count gid) self = Ok (count row)
       ∧ call (get_gate_absolute_percent gid) self
         = Ok (absolute_percent row)
       ∧ call (get_gate_relative_percent gid) self
         = Ok (relative_percent row)).
Proof.
  intros Hi Hs. split.
  - intros Hlen. split_and!.
    + by apply (column_ambiguous (λ row, count row) raw sid).
    + by apply (column_ambiguous (λ row, absolute_percent row) raw sid).
    + by apply (column_ambiguous (λ row, relative_percent row) raw sid).
  - intros o Ho. exists (spec_row o). split_and!.
    + by apply (select_rows_single raw sid).
    + done.
    + by apply (column_single (λ row, count row) raw sid).
    + by apply (column_single (λ row, absolute_percent row) raw sid).
    + by apply (column_single (λ row, relative_percent row) raw sid).
Qed.

(** C4. On a gate id that occurs at more than one path, [get_gate_indices]
    without a gate path raises the ValueError that says the id is ambiguous
    and asks for the full gate path. *)
Theorem ambiguous_without_path raw sid self gid :
  __init__ raw sid = Ok self →
  1 < length (occurrences_of gid raw) →
  call (get_gate_indices gid None) self = Raise (ValueError ambiguous_msg).
Proof. apply indices_ambiguous. Qed.

(** C5. On a gate id that occurs at exactly one path, [get_gate_indices]
    returns the membership vector of the one record whatever is passed as
    gate path: nothing, the path, or any other path. *)
Theorem single_path_any_argument raw sid self gid o gp :
  __init__ raw sid = Ok self →
  dicts raw → single_sample raw sid →
  occurrences_of gid raw = [o] →
  call (get_gate_indices gid gp) self = Ok (Events (res_events (occ_res o)))
  ∧ call (get_gate_indices gid gp) self = call (get_gate_indices gid None) self.
Proof.
  intros Hi Hd Hs Ho.
  by rewrite !(indices_single raw sid self gid o) by done.
Qed.

(** C6. Construction flattens the raw results: the report is, up to the
    order of the rows, one row per quadrant of each quadrant dict (a value
    without an "events" entry), with the id of the quadrant gate as
    quadrant parent, and one row with a null quadrant parent per other
    record; the level of every row is the length of its gate path. *)
Theorem report_flattens raw sid :
  quadrants_typed raw →
  ∃ self, __init__ raw sid = Ok self
          ∧ report self ≡ₚ spec_row <$> (raw ≫= occurrences_of_item)
          ∧ (∀ k r, occurrences_of_item (k, Simple r)
                    = [ {| occ_id := k.1; occ_path := k.2;
                           occ_quad := None; occ_res := r |} ])
          ∧ (∀ k subs, occurrences_of_item (k, Quad subs)
                       = (λ sub : string * res_dict,
                            {| occ_id := sub.1; occ_path := k.2;
                               occ_quad := Some k.1; occ_res := sub.2 |})
                         <$> subs)
          ∧ Forall (λ row, level row = length (gate_path row)) (report self).
Proof.
  intros Hq. destruct (init_total raw sid Hq) as [self Hi].
  destruct (init_spec _ _ _ Hi) as (_ & _ & _ & Hrep & _).
  exists self. split_and!; [done|done|done|done|].
  rewrite Hrep. apply Forall_fmap, Forall_forall. done.
Qed.

(** C7 (as amended). When the report rows that match a gate id have more
    than one distinct quadrant parent, [get_gate_indices] with a gate path
    raises the ValueError about multiple quadrant parents, and without a
    gate path the ValueError about the ambiguous id, which is checked
    first; it never returns a vector then. The error about multiple
    quadrant parents is raised in that situation only. *)
Theorem multiple_quadrant_parents raw sid self gid :
  __init__ raw sid = Ok self →
  single_sample raw sid →
  (1 < size (quad_parent_values self gid) →
     (∀ arg, call (get_gate_indices gid (Some arg)) self
             = Raise (ValueError (multiple_parents_msg gid)))
     ∧ call (get_gate_indices gid None) self
       = Raise (ValueError ambiguous_msg))
  ∧ (∀ gp, call (get_gate_indices gid gp) self
           = Raise (ValueError (multiple_parents_msg gid)) →
           1 < size (quad_parent_values self gid)).
Proof.
  intros Hi Hs.
  pose proof (quad_parent_values_spec _ _ _ gid Hi) as HS.
  rewrite sample_occurrences_single in HS by done.
  destruct (init_spec _ _ _ Hi) as (_ & _ & _ & _ & Hlut & Hne).
  split.
  - intros Hsize.
    assert (1 < length (occurrences_of gid raw)) as Hlen.
    { pose proof (size_list_to_set_le (occ_quad <$> occurrences_of gid raw))
        as Hle.
      rewrite <-HS, length_fmap in Hle. lia. }
    split; [|by apply (indices_ambiguous _ _ _ _ Hi)].
    destruct (lut_lookup_Some _ _ _ gid Hi) as (e & He & Hp).
    { intros Hnil. rewrite Hnil in Hlen. simpl in Hlen. lia. }
    intros arg. apply (indices_not_one_parent _ _ _ e); [done| |done|lia].
    by apply (Hne gid).
  - intros gp Hcall.
    apply indices_multiple_parents_inv in Hcall as (e & He & Hsize).
    assert (size (quad_parent_values self gid) ≠ 0); [|lia].
    intros Hz%size_empty_inv. apply leibniz_equiv in Hz.
    rewrite HS in Hz.
    pose proof (Hlut gid) as Hpaths. unfold paths_of in Hpaths.
    rewrite He in Hpaths.
    destruct (occurrences_of gid raw) as [|o l].
    + by apply (Hne gid e).
    + assert (occ_quad o ∈ (∅ : gset (option string))) as Hin
        by (rewrite <-Hz, elem_of_list_to_set; left).
      by apply not_elem_of_empty in Hin.
Qed.


(** C9. No query changes the instance: after any sequence of calls of
    [get_gate_indices], [get_gate_count], [get_gate_absolute_percent] and
    [get_gate_relative_percent], whether they return or raise, the report,
    the lookup table, the raw results and the sample id are what they
    were. *)
Theorem queries_do_not_mutate qs self :
  let self' := (run_queries qs self).2 in
  report self' = report self
  ∧ _gate_lut self' = _gate_lut self
  ∧ _raw_results self' = _raw_results self
  ∧ sample_id self' = sample_id self.
Proof.
  assert ((run_queries qs self).2 = self) as ->; [|done].
  revert self. induction qs as [|q qs IH]; intros self; simpl; [done|].
  pose proof (run_query_read_only q self) as Hq.
  destruct (run_query q self) as [a self']. simpl in Hq. subst self'.
  specialize (IH self). by destruct (run_queries qs self) as [answers self''].
Qed.

(** C10. On a gate id that occurs at no path, [get_gate_indices] raises
    KeyError, with or without a gate path, and [get_gate_count],
    [get_gate_absolute_percent] and [get_gate_relative_percent] raise
    IndexError. *)
Theorem unknown_gate_raises raw sid self gid gp :
  __init__ raw sid = Ok self →
  occurrences_of gid raw = [] →
  call (get_gate_indices gid gp) self = Raise KeyError
  ∧ call (get_gate_count gid) self = Raise IndexError
  ∧ call (get_gate_absolute_percent gid) self = Raise IndexError
  ∧ call (get_gate_relative_percent gid) self = Raise IndexError.
Proof.
  intros Hi Ho. split_and!.
  - by apply (indices_unknown raw sid).
  - by apply (column_unknown (λ row, count row) raw sid).
  - by apply (column_unknown (λ row, absolute_percent row) raw sid).
  - by apply (column_unknown (λ row, relative_percent row) raw sid).
Qed.

(** * The theorems on the sample data *)

Lemma path_qualified_indices_witness :
  ∃ self,
    __init__ reused_raw "data1.fcs" = Ok self
    ∧ call (get_gate_indices "B" (Some (ArgList ["root"; "A"]))) self
      = Ok (Events [true; true; false; false])
    ∧ call (get_gate_indices "B" (Some (ArgKey (PStr "root/A")))) self
      = Ok (Events [true; true; false; false]).
Proof.
  destruct (__init__ reused_raw "data1.fcs") as [self|e] eqn:Hi;
    [|vm_compute in Hi; discriminate].
  exists self. split; [reflexivity|]. split.
  - apply (path_qualified_indices reused_raw "data1.fcs" self "B"
             b_under_a_occurrence (ArgList ["root"; "A"]) Hi).
    + by_decide.
    + by_decide.
    + vm_compute; lia.
    + by_decide.
    + by_decide.
    + reflexivity.
  - apply (path_qualified_indices reused_raw "data1.fcs" self "B"
             b_under_a_occurrence (ArgKey (PStr "root/A")) Hi).
    + by_decide.
    + by_decide.
    + vm_compute; lia.
    + by_decide.
    + by_decide.
    + reflexivity.
Defined.

(** The claim C1 as stated fails where a gate id names a gate and a
    quadrant: pos occurs at two paths, a record is stored under
    (pos, root), and with that path, as a string or as a list, the call
    raises instead of returning the vector of the record. *)
Lemma path_qualified_indices_counterexample :
  ∃ self,
    __init__ clash_raw "data1.fcs" = Ok self
    ∧ paths_of "pos" (_gate_lut self) = [PStr "root"; PStr "root/A"]
    ∧ dict_get ("pos", PStr "root") clash_raw = Some (Simple pos_gate)
    ∧ call (get_gate_indices "pos" (Some (ArgKey (PStr "root")))) self
      = Raise (ValueError (multiple_parents_msg "pos"))
    ∧ call (get_gate_indices "pos" (Some (ArgList ["root"]))) self
      = Raise (ValueError (multiple_parents_msg "pos"))
    ∧ call (get_gate_indices "pos" (Some (ArgKey (PStr "root")))) self
      ≠ Ok (Events (res_events pos_gate)).
Proof.
  eexists. split; [vm_compute; reflexivity|].
  split_and!; try (vm_compute; reflexivity).
  vm_compute. discriminate.
Qed.

Lemma indices_sum_is_count_witness :
  ∃ self,
    evaluate py_percent 0 "data1.fcs" 4 demo_tree = Ok self
    ∧ ∃ a c, call (get_gate_indices "neg" None) self = Ok (Events a)
             ∧ call (get_gate_count "neg") self = Ok c
             ∧ py_sum a = c.
Proof.
  assert (∃ self, evaluate py_percent 0 "data1.fcs" 4 demo_tree = Ok self
                  ∧ length (paths_of "neg" (_gate_lut self)) = 1)
    as (self & He & Hlen).
  { eexists. split; [vm_compute; reflexivity|vm_compute; reflexivity]. }
  exists self. split; [exact He|].
  exact (indices_sum_is_count py_percent 0 "data1.fcs" 4 demo_tree self "neg"
           He Hlen).
Defined.

Lemma id_only_accessors_witness :
  ∃ self,
    __init__ reused_raw "data1.fcs" = Ok self
    ∧ call (get_gate_count "B") self
      = Raise (NotImplementedError not_implemented_msg)
    ∧ call (get_gate_count "neg") self = Ok 2%Z
    ∧ call (get_gate_absolute_percent "neg") self = Ok 50%Q
    ∧ call (get_gate_relative_percent "neg") self = Ok (200 # 3)%Q.
Proof.
  destruct (__init__ reused_raw "data1.fcs") as [self|e] eqn:Hi;
    [|vm_compute in Hi; discriminate].
  exists self. split; [reflexivity|].
  assert (single_sample reused_raw "data1.fcs") as Hs by by_decide.
  destruct (id_only_accessors reused_raw "data1.fcs" self "B" Hi Hs)
    as [Hmany _].
  destruct (id_only_accessors reused_raw "data1.fcs" self "neg" Hi Hs)
    as [_ Hone].
  destruct (Hone q_neg_occurrence) as (row & _ & Hrow & Hc & Ha & Hr);
    [vm_compute; reflexivity|].
  subst row.
  split_and!; [|exact Hc|exact Ha|exact Hr].
  apply Hmany. vm_compute; lia.
Defined.

Lemma ambiguous_without_path_witness :
  ∃ self,
    __init__ reused_raw "data1.fcs" = Ok self
    ∧ call (get_gate_indices "B" None) self
      = Raise (ValueError ambiguous_msg).
Proof.
  destruct (__init__ reused_raw "data1.fcs") as [self|e] eqn:Hi;
    [|vm_compute in Hi; discriminate].
  exists self. split; [reflexivity|].
  apply (ambiguous_without_path reused_raw "data1.fcs" self "B" Hi).
  vm_compute; lia.
Defined.

Lemma single_path_any_argument_witness :
  ∃ self,
    __init__ reused_raw "data1.fcs" = Ok self
    ∧ call (get_gate_indices "neg" (Some (ArgList ["root"; "C"]))) self
      = Ok (Events [false; true; true; false]).
Proof.
  destruct (__init__ reused_raw "data1.fcs") as [self|e] eqn:Hi;
    [|vm_compute in Hi; discriminate].
  exists self. split; [reflexivity|].
  apply (single_path_any_argument reused_raw "data1.fcs" self "neg"
           q_neg_occurrence (Some (ArgList ["root"; "C"])) Hi).
  - by_decide.
  - by_decide.
  - vm_compute; reflexivity.
Defined.

Lemma report_flattens_witness :
  quadrants_typed reused_raw
  ∧ ∃ self, __init__ reused_raw "data1.fcs" = Ok self
            ∧ report self ≡ₚ spec_row <$> (reused_raw ≫= occurrences_of_item)
            ∧ Forall (λ row, level row = length (gate_path row)) (report self).
Proof.
  assert (quadrants_typed reused_raw) as Hq by by_decide.
  split; [exact Hq|].
  destruct (report_flattens reused_raw "data1.fcs" Hq)
    as (self & Hi & Hrep & _ & _ & Hlevel).
  by exists self.
Defined.

Lemma multiple_quadrant_parents_witness :
  ∃ self,
    __init__ clash_raw "data1.fcs" = Ok self
    ∧ 1 < size (quad_parent_values self "pos")
    ∧ call (get_gate_indices "pos" (Some (ArgKey (PStr "root/A")))) self
      = Raise (ValueError (multiple_parents_msg "pos")).
Proof.
  eexists. split; [vm_compute; reflexivity|].
  split; [vm_compute; lia|].
  refine (proj1 (proj1 (multiple_quadrant_parents clash_raw "data1.fcs" _
                          "pos" _ _) _) _).
  - vm_compute; reflexivity.
  - by_decide.
  - vm_compute; lia.
Defined.

(** The claim C7 as stated fails on a call without a gate path: the rows
    of pos have two distinct quadrant parents (none, and Q), and the error
    raised is the one about the ambiguous id. *)
Lemma multiple_quadrant_parents_counterexample :
  ∃ self,
    __init__ clash_raw "data1.fcs" = Ok self
    ∧ quad_parent_values self "pos" = {[ None; Some "Q" ]}
    ∧ 1 < size (quad_parent_values self "pos")
    ∧ call (get_gate_indices "pos" None) self
      = Raise (ValueError ambiguous_msg)
    ∧ call (get_gate_indices "pos" None) self
      ≠ Raise (ValueError (multiple_parents_msg "pos")).
Proof.
  eexists. split; [vm_compute; reflexivity|].
  split_and!.
  - vm_compute; reflexivity.
  - vm_compute; lia.
  - vm_compute; reflexivity.
  - vm_compute. discriminate.
Qed.



Lemma unknown_gate_raises_witness :
  ∃ self,
    __init__ reused_raw "data1.fcs" = Ok self
    ∧ call (get_gate_indices "nonexistent-gate" None) self = Raise KeyError
    ∧ call (get_gate_count "nonexistent-gate") self = Raise IndexError
    ∧ call (get_gate_absolute_percent "nonexistent-gate") self
      = Raise IndexError
    ∧ call (get_gate_relative_percent "nonexistent-gate") self
      = Raise IndexError.
Proof.
  destruct (__init__ reused_raw "data1.fcs") as [self|e] eqn:Hi;
    [|vm_compute in Hi; discriminate].
  exists self. split; [reflexivity|].
  apply (unknown_gate_raises reused_raw "data1.fcs" self
           "nonexistent-gate" None Hi).
  vm_compute; reflexivity.
Defined.

(** * Lemmas for the further properties *)

(** ** The order of the report *)

Lemma row_compare_antisym a b : row_compare b a = CompOpp (row_compare a b).
Proof.
  unfold row_compare.
  rewrite (String.compare_antisym (sample a) (sample b)).
  rewrite (Nat.compare_antisym (level a) (level b)).
  rewrite (String.compare_antisym (gate_id a) (gate_id b)).
  destruct (String.compare (sample b) (sample a)),
    (Nat.compare (level a) (level b)),
    (String.compare (gate_id b) (gate_id a)); done.
Qed.

Lemma row_leb_total a b : row_leb a b = false → row_le b a.
Proof.
  unfold row_leb, row_le. rewrite (row_compare_antisym a b).
  by destruct (row_compare a b).
Qed.

Lemma row_leb_le a b : row_leb a b = true → row_le a b.
Proof. unfold row_leb, row_le. by destruct (row_compare a b). Qed.

Lemma insert_row_hd a b l :
  row_le b a → HdRel row_le b l → HdRel row_le b (insert_row a l).
Proof.
  intros Hba Hl. destruct l as [|c l]; simpl; [by constructor|].
  destruct (row_leb a c); constructor; [done|]. by inversion Hl.
Qed.

Lemma insert_row_sorted a l : Sorted row_le l → Sorted row_le (insert_row a l).
Proof.
  induction 1 as [|b l Hs IH Hhd]; simpl; [by repeat constructor|].
  destruct (row_leb a b) eqn:Hab.
  - constructor; [by constructor|]. constructor. by apply row_leb_le.
  - constructor; [done|]. apply insert_row_hd; [|done].
    by apply row_leb_total.
Qed.

Lemma sort_values_sorted l : Sorted row_le (sort_values l).
Proof.
  unfold sort_values. induction l as [|a l IH]; simpl; [constructor|].
  by apply insert_row_sorted.
Qed.

Lemma init_report raw sid self :
  __init__ raw sid = Ok self →
  ∃ rows, report self = sort_values rows.
Proof.
  unfold __init__. destruct (process_items _ _) as [st|]; [|done].
  destruct (untyped_row st); [done|]. intros [= <-]. simpl. eauto.
Qed.

(** ** The lookup table and the report *)

Lemma occurrences_of_nil_iff gid raw :
  occurrences_of gid raw = [] ↔ gid ∉ occ_id <$> occurrences raw.
Proof.
  unfold occurrences_of. induction (occurrences raw) as [|o l IH].
  - split; [intros _; apply not_elem_of_nil|done].
  - rewrite filter_cons, fmap_cons, not_elem_of_cons. case_decide as Ho.
    + split; [done|]. intros [Hne _]. by destruct Hne.
    + rewrite IH. split; [intros ?; by split|by intros [_ ?]].
Qed.

Lemma rows_of_gate raw sid self gid :
  __init__ raw sid = Ok self →
  filter (λ row : report_row, gate_id row = gid) (report self)
  ≡ₚ spec_row <$> occurrences_of gid raw.
Proof.
  intros Hi. destruct (init_spec _ _ _ Hi) as (_ & _ & _ & Hrep & _).
  unfold occurrences_of. by rewrite Hrep, filter_fmap_spec_row.
Qed.

(** ** Construction on an unreadable quadrant dict *)

Lemma process_item_unreadable st item :
  unreadable item → process_item st item = Raise KeyError.
Proof.
  destruct item as [[g p] [r|subs]]; unfold unreadable; simpl; [done|].
  intros [-> Hk]. simpl. by rewrite Hk.
Qed.

Lemma process_item_raises st item e :
  process_item st item = Raise e → e = KeyError.
Proof.
  destruct item as [[g p] [r|subs]]; simpl; [done|].
  repeat case_match; by intros [= <-].
Qed.

Lemma process_items_unreadable raw : ∀ st,
  Exists unreadable raw → process_items st raw = Raise KeyError.
Proof.
  induction raw as [|item raw IH]; intros st Hex; [by inversion Hex|].
  simpl. destruct (process_item st item) as [st'|e] eqn:Hp.
  - apply IH. inversion Hex as [?? Hu|]; [|done].
    by rewrite (process_item_unreadable st item Hu) in Hp.
  - by rewrite (process_item_raises _ _ _ Hp).
Qed.

(** ** The accessors, by the occurrences of the sample *)

Lemma column_by_sample {A} (col : report_row → A) raw sid self gid :
  __init__ raw sid = Ok self →
  call (get_column col gid) self
  = column_answer col (sample_occurrences sid gid raw).
Proof.
  intros Hi. pose proof (select_rows_spec _ _ _ gid Hi) as Hs.
  unfold_accessor.
  destruct (sample_occurrences sid gid raw) as [|o [|o' l]] eqn:Ho.
  - apply Permutation_nil_r in Hs as ->. done.
  - apply Permutation_singleton_r in Hs as ->. done.
  - apply Permutation_length in Hs.
    rewrite decide_True; [done|]. rewrite Hs. simpl. lia.
Qed.

Lemma column_answer_perm {A} (col : report_row → A) l1 l2 :
  l1 ≡ₚ l2 → column_answer col l1 = column_answer col l2.
Proof.
  intros Hp. destruct l1 as [|o [|o' l]].
  - by apply Permutation_nil_l in Hp as ->.
  - by apply Permutation_singleton_l in Hp as ->.
  - pose proof (Permutation_length Hp) as Hl.
    destruct l2 as [|a [|b l2]]; simpl in Hl; try lia. done.
Qed.

Lemma occurrences_perm raw1 raw2 :
  raw1 ≡ₚ raw2 → occurrences raw1 ≡ₚ occurrences raw2.
Proof. intros Hp. unfold occurrences. by rewrite Hp. Qed.

Lemma occurrences_of_perm gid raw1 raw2 :
  raw1 ≡ₚ raw2 → occurrences_of gid raw1 ≡ₚ occurrences_of gid raw2.
Proof.
  intros Hp. unfold occurrences_of. by rewrite (occurrences_perm _ _ Hp).
Qed.

Lemma sample_occurrences_perm sid gid raw1 raw2 :
  raw1 ≡ₚ raw2 →
  sample_occurrences sid gid raw1 ≡ₚ sample_occurrences sid gid raw2.
Proof.
  intros Hp. unfold sample_occurrences.
  by rewrite (occurrences_of_perm _ _ _ Hp).
Qed.

(** ** The cases of [get_gate_indices] *)

Lemma resolved_arg gate_paths arg :
  1 < length gate_paths → resolved gate_paths (Some arg) (key_of_arg arg).
Proof.
  intros Hlen. unfold resolved. rewrite decide_True by done.
  by destruct arg.
Qed.

Lemma resolved_head p (gate_paths : list pathkey) gp :
  ¬ 1 < length (p :: gate_paths) → resolved (p :: gate_paths) gp p.
Proof. intros Hlen. unfold resolved. by rewrite decide_False. Qed.

Lemma indices_fetch self gid gp e p qp :
  _gate_lut self !! gid = Some e →
  resolved (paths e) gp p →
  quad_parent_values self gid = {[ qp ]} →
  call (get_gate_indices gid gp) self = fetch (_raw_results self) gid p qp.
Proof. apply indices_one_parent. Qed.

Lemma occurrence_of_item raw item o :
  item ∈ raw → o ∈ occurrences_of_item item → o ∈ occurrences raw.
Proof.
  intros Hi Ho. unfold occurrences. apply list_elem_of_bind. eauto.
Qed.

(** What [fetch] returns is the vector of an occurrence of the id at the
    path. *)
Lemma fetch_ok raw gid p qp v :
  quadrants_typed raw →
  fetch raw gid p qp = Ok v →
  ∃ o, o ∈ occurrences_of gid raw ∧ occ_path o = p ∧ occ_quad o = qp
       ∧ v = Events (res_events (occ_res o)).
Proof.
  intros Hq. unfold fetch, dict_index.
  destruct qp as [q|].
  - destruct (dict_get (q, p) raw) as [[r|subs]|] eqn:Hg; [| |done].
    + unfold sub_events_of. repeat case_match; done.
    + simpl. destruct (dict_get gid subs) as [r|] eqn:Hs; [|done].
      intros [= <-].
      exists {| occ_id := gid; occ_path := p; occ_quad := Some q;
                occ_res := r |}.
      split_and!; try done.
      apply list_elem_of_filter. split; [done|].
      apply (occurrence_of_item _ _ _ (dict_get_elem_of _ _ _ Hg)).
      unfold occurrences_of_item. simpl.
      apply list_elem_of_fmap. exists (gid, r).
      split; [done|]. by apply dict_get_elem_of.
  - destruct (dict_get (gid, p) raw) as [[r|subs]|] eqn:Hg; [| |done].
    + simpl. intros [= <-].
      exists {| occ_id := gid; occ_path := p; occ_quad := None;
                occ_res := r |}.
      split_and!; try done.
      apply list_elem_of_filter. split; [done|].
      apply (occurrence_of_item _ _ _ (dict_get_elem_of _ _ _ Hg)).
      unfold occurrences_of_item. simpl. left.
    + simpl. apply dict_get_elem_of in Hg.
      pose proof (proj1 (Forall_forall _ _) Hq _ Hg) as Hty. simpl in Hty.
      destruct (dict_get "events" subs) as [r|] eqn:He; [|done].
      destruct Hty as [? ?]; [|done].
      unfold dict_has. apply bool_decide_eq_true.
      apply dict_get_elem_of in He.
      apply list_elem_of_fmap. by exists ("events", r).
Qed.

(** Without an occurrence at the path, [fetch] raises. *)
Lemma fetch_unmatched raw gid p qp :
  quadrants_typed raw →
  p ∉ occ_path <$> occurrences_of gid raw →
  (∃ e, fetch raw gid p qp = Raise e)
  ∧ (gid ∉ res_dict_keys → fetch raw gid p qp = Raise KeyError).
Proof.
  intros Hq Hp.
  assert (∀ v, fetch raw gid p qp ≠ Ok v) as Hnot.
  { intros v Hv. apply (fetch_ok _ _ _ _ _ Hq) in Hv as (o & Ho & <- & _).
    apply Hp. apply list_elem_of_fmap. eauto. }
  split.
  - destruct (fetch raw gid p qp) as [v|e]; [by destruct (Hnot v)|eauto].
  - intros Hgid. revert Hnot. unfold fetch, dict_index.
    destruct qp as [q|].
    + destruct (dict_get (q, p) raw) as [[r|subs]|]; [| |done].
      * intros _. unfold sub_events_of.
        unfold res_dict_keys in Hgid. apply not_elem_of_cons in Hgid as [H1 H2].
        rewrite bool_decide_eq_false_2.
        -- by rewrite bool_decide_eq_false_2.
        -- unfold numpy_keys. rewrite elem_of_cons. intros [->|Hin]; [done|].
           apply H2.
           repeat (apply elem_of_cons in Hin as [->|Hin]); try by_decide.
           by apply elem_of_nil in Hin.
      * simpl. destruct (dict_get gid subs); [|done].
        intros Hnot. by destruct (Hnot (Events (res_events r))).
    + destruct (dict_get (gid, p) raw) as [[r|subs]|]; [| |done].
      * simpl. intros Hnot. by destruct (Hnot (Events (res_events r))).
      * simpl. destruct (dict_get "events" subs) as [r|]; [|done].
        intros Hnot. by destruct (Hnot (ResDict r)).
Qed.

Lemma size_one_singleton (S : gset (option string)) :
  size S = 1 → ∃ qp, S = {[ qp ]}.
Proof.
  intros Hs. apply size_1_elem_of in Hs as [qp Hqp].
  exists qp. by apply leibniz_equiv.
Qed.

Lemma indices_returns raw sid self gid gp v :
  __init__ raw sid = Ok self →
  call (get_gate_indices gid gp) self = Ok v →
  ∃ e p qp,
    _gate_lut self !! gid = Some e
    ∧ resolved (paths e) gp p
    ∧ fetch raw gid p qp = Ok v.
Proof.
  intros Hi Hcall.
  destruct (init_spec _ _ _ Hi) as (Hraw & _ & _ & _ & _ & Hne).
  destruct (_gate_lut self !! gid) as [e|] eqn:He.
  2: { revert Hcall. unfold call, get_gate_indices. run_monad.
       by rewrite He. }
  assert (∃ p, resolved (paths e) gp p) as [p Hp].
  { unfold resolved. destruct (decide (1 < length (paths e))) as [Hlen|Hlen].
    - destruct gp as [arg|].
      + exists (key_of_arg arg). by destruct arg.
      + revert Hcall. unfold call, get_gate_indices. run_monad.
        rewrite He. run_monad. by rewrite decide_True.
    - destruct (paths e) as [|p ps] eqn:Hps; [by destruct (Hne _ _ He)|].
      by exists p. }
  destruct (decide (size (quad_parent_values self gid) = 1)) as [HS|HS].
  - apply size_one_singleton in HS as [qp HS].
    exists e, p, qp. split_and!; [done|done|].
    by rewrite <-Hraw, <-(indices_fetch self gid gp e p qp).
  - rewrite (indices_not_one_parent self gid gp e) in Hcall; try done.
    + by apply (Hne gid).
    + intros Hlen ->. unfold resolved in Hp. by rewrite decide_True in Hp.
Qed.

Lemma indices_unmatched raw sid self gid arg :
  __init__ raw sid = Ok self →
  1 < length (occurrences_of gid raw) →
  size (quad_parent_values self gid) = 1 →
  key_of_arg arg ∉ occ_path <$> occurrences_of gid raw →
  (∃ e, call (get_gate_indices gid (Some arg)) self = Raise e)
  ∧ (gid ∉ res_dict_keys →
     call (get_gate_indices gid (Some arg)) self = Raise KeyError).
Proof.
  intros Hi Hlen HS Hp.
  destruct (init_spec _ _ _ Hi) as (Hraw & _ & Hq & _).
  destruct (lut_lookup_Some _ _ _ gid Hi) as (e & He & Hpaths).
  { intros Hnil. rewrite Hnil in Hlen. simpl in Hlen. lia. }
  apply size_one_singleton in HS as [qp HS].
  rewrite (indices_fetch self gid _ e (key_of_arg arg) qp); [|done| |done].
  - rewrite Hraw. by apply fetch_unmatched.
  - apply resolved_arg. by rewrite Hpaths, length_fmap.
Qed.

Lemma dict_get_perm {K V} `{EqDecision K} (d1 d2 : list (K * V)) k :
  is_dict d1 → d1 ≡ₚ d2 → dict_get k d1 = dict_get k d2.
Proof.
  intros Hd Hp.
  assert (is_dict d2) as Hd2.
  { unfold is_dict, dict_keys in *. by rewrite <-Hp. }
  destruct (dict_get k d1) as [v|] eqn:H1.
  - symmetry. apply dict_get_Some; [done|].
    rewrite <-Hp. by apply dict_get_elem_of.
  - symmetry. apply dict_get_None. apply dict_get_None in H1.
    unfold dict_keys in *. by rewrite <-Hp.
Qed.

Lemma fetch_perm raw1 raw2 gid p qp :
  is_dict raw1 → raw1 ≡ₚ raw2 → fetch raw1 gid p qp = fetch raw2 gid p qp.
Proof.
  intros Hd Hp. unfold fetch, dict_index.
  destruct qp; by rewrite (dict_get_perm raw1 raw2 _ Hd Hp).
Qed.

Lemma quadrants_typed_perm raw1 raw2 :
  raw1 ≡ₚ raw2 → quadrants_typed raw1 → quadrants_typed raw2.
Proof. unfold quadrants_typed. by intros ->. Qed.

Lemma indices_perm raw1 raw2 sid self1 self2 gid gp :
  raw1 ≡ₚ raw2 → is_dict raw1 →
  __init__ raw1 sid = Ok self1 → __init__ raw2 sid = Ok self2 →
  call (get_gate_indices gid gp) self1 = call (get_gate_indices gid gp) self2.
Proof.
  intros Hp Hd H1 H2.
  pose proof (occurrences_of_perm gid _ _ Hp) as Hocc.
  destruct (init_spec _ _ _ H1) as (Hraw1 & _).
  destruct (init_spec _ _ _ H2) as (Hraw2 & _).
  assert (quad_parent_values self1 gid = quad_parent_values self2 gid) as HS.
  { rewrite (quad_parent_values_spec _ _ _ _ H1),
      (quad_parent_values_spec _ _ _ _ H2).
    by rewrite (sample_occurrences_perm sid gid _ _ Hp). }
  destruct (occurrences_of gid raw1) as [|o1 l1] eqn:Ho1.
  { apply Permutation_nil_l in Hocc. symmetry in Hocc.
    rewrite (indices_unknown _ _ _ _ gp H1 Ho1).
    by rewrite (indices_unknown _ _ _ _ gp H2 Hocc). }
  destruct (lut_lookup_Some _ _ _ gid H1) as (e1 & He1 & Hp1);
    [by rewrite Ho1|].
  destruct (lut_lookup_Some _ _ _ gid H2) as (e2 & He2 & Hp2).
  { intros Hnil. rewrite Hnil in Hocc. by apply Permutation_nil_r in Hocc. }
  rewrite Ho1 in Hp1.
  assert (length (paths e1) = length (paths e2)) as Hlen.
  { rewrite Hp1, Hp2, !length_fmap. by rewrite <-Hocc. }
  assert (∃ p, gp = None ∧ 1 < length (paths e1)
               ∨ resolved (paths e1) gp p ∧ resolved (paths e2) gp p)
    as [p [[-> Hl]|[Hr1 Hr2]]].
  { destruct (decide (1 < length (paths e1))) as [Hl|Hl].
    - destruct gp as [arg|]; [|exists (occ_path o1); by left].
      exists (key_of_arg arg). right.
      split; apply resolved_arg; [done|by rewrite <-Hlen].
    - exists (occ_path o1). right.
      destruct l1 as [|o1' l1]; [|rewrite Hp1 in Hl; simpl in Hl; lia].
      apply Permutation_singleton_l in Hocc. rewrite <-Hocc in Hp2.
      rewrite Hp1, Hp2. simpl. split; apply resolved_head; simpl; lia. }
  - rewrite (indices_ambiguous _ _ _ _ H1), (indices_ambiguous _ _ _ _ H2);
      [done| |].
    + rewrite <-(length_fmap occ_path), <-Hp2, <-Hlen. done.
    + rewrite Ho1, <-(length_fmap occ_path), <-Hp1. done.
  - destruct (decide (size (quad_parent_values self1 gid) = 1)) as [Hs|Hs].
    + apply size_one_singleton in Hs as [qp Hqp].
      rewrite (indices_fetch self1 gid gp e1 p qp) by done.
      rewrite (indices_fetch self2 gid gp e2 p qp) by (by rewrite <-?HS).
      rewrite Hraw1, Hraw2. by apply fetch_perm.
    + destruct (init_spec _ _ _ H1) as (_ & _ & _ & _ & _ & Hne1).
      destruct (init_spec _ _ _ H2) as (_ & _ & _ & _ & _ & Hne2).
      rewrite (indices_not_one_parent self1 gid gp e1),
        (indices_not_one_parent self2 gid gp e2); try done.
      * by apply (Hne2 gid).
      * intros Hl ->. unfold resolved in Hr2. by rewrite decide_True in Hr2.
      * by rewrite <-HS.
      * by apply (Hne1 gid).
      * intros Hl ->. unfold resolved in Hr1. by rewrite decide_True in Hr1.
Qed.

(** * Further properties of the report and of the queries *)

(** X1. The report of a constructed instance is in ascending order of
    (sample, level, gate id): no row is followed by a row that sorts
    before it. *)
Theorem report_sorted raw sid self :
  __init__ raw sid = Ok self → Sorted row_le (report self).
Proof.
  intros Hi. destruct (init_report _ _ _ Hi) as [rows ->].
  apply sort_values_sorted.
Qed.

(** X2. The lookup table has an entry for exactly the gate ids that occur
    in the raw results, as gates or as quadrants; the entry lists the path of
    each occurrence, in the order of the raw results, and is never empty. *)
Theorem lookup_table_paths raw sid self gid :
  __init__ raw sid = Ok self →
  (_gate_lut self !! gid = None ↔ occurrences_of gid raw = [])
  ∧ (∀ e, _gate_lut self !! gid = Some e →
       paths e = occ_path <$> occurrences_of gid raw ∧ paths e ≠ []).
Proof.
  intros Hi. destruct (init_spec _ _ _ Hi) as (_ & _ & _ & _ & Hlut & Hne).
  specialize (Hlut gid). unfold paths_of in Hlut. split.
  - split; [|by apply (lut_lookup_None raw sid)].
    intros Hnone. rewrite Hnone in Hlut. symmetry in Hlut.
    by apply fmap_nil_inv in Hlut.
  - intros e He. rewrite He in Hlut. split; [done|]. by apply (Hne gid).
Qed.

(** X3. For every gate id the lookup table holds as many paths as the
    report has rows of that id, and no entry when the report has none. *)
Theorem lookup_table_matches_report raw sid self gid :
  __init__ raw sid = Ok self →
  length (paths_of gid (_gate_lut self))
  = length (filter (λ row : report_row, gate_id row = gid) (report self))
  ∧ (_gate_lut self !! gid = None
     ↔ filter (λ row : report_row, gate_id row = gid) (report self) = []).
Proof.
  intros Hi. destruct (init_spec _ _ _ Hi) as (_ & _ & _ & _ & Hlut & Hne).
  pose proof (rows_of_gate _ _ _ gid Hi) as Hrows.
  assert (length (paths_of gid (_gate_lut self))
          = length (filter (λ row : report_row, gate_id row = gid)
                      (report self))) as Hlen.
  { by rewrite Hlut, Hrows, !length_fmap. }
  split; [done|]. rewrite <-length_zero_iff_nil, <-Hlen. unfold paths_of.
  destruct (_gate_lut self !! gid) as [e|] eqn:He; [|done].
  split; [done|]. intros Hz%length_zero_iff_nil. by destruct (Hne _ _ He).
Qed.

(** X4. Construction raises KeyError when a quadrant dict has a quadrant
    named "events" and lacks a quadrant named after one of the fields read
    for a row: the dict is taken for the record of a simple gate. *)
Theorem unreadable_quadrant_dict raw sid :
  Exists unreadable raw → __init__ raw sid = Raise KeyError.
Proof.
  intros Hex. unfold __init__.
  by rewrite (process_items_unreadable raw initial_state Hex).
Qed.

(** X5. The id-only accessors answer by the occurrences of the gate id
    among the records of the sample of the instance: IndexError without
    one, the count, absolute percent or relative percent of the record
    with exactly one, NotImplementedError with more. Records of another
    sample do not count. *)
Theorem accessors_by_sample raw sid self gid :
  __init__ raw sid = Ok self →
  call (get_gate_count gid) self
  = column_answer (λ row, count row) (sample_occurrences sid gid raw)
  ∧ call (get_gate_absolute_percent gid) self
    = column_answer (λ row, absolute_percent row)
        (sample_occurrences sid gid raw)
  ∧ call (get_gate_relative_percent gid) self
    = column_answer (λ row, relative_percent row)
        (sample_occurrences sid gid raw).
Proof.
  intros Hi. split_and!.
  - by apply (column_by_sample (λ row, count row)).
  - by apply (column_by_sample (λ row, absolute_percent row)).
  - by apply (column_by_sample (λ row, relative_percent row)).
Qed.

(** X6. Whenever [get_gate_indices] returns, it returns the membership
    vector of an occurrence of the gate id asked for, never a record and
    never the vector of another id; and when the id has more than one
    path, a gate path was supplied and the occurrence is the one under the
    key made of it. *)
Theorem indices_sound raw sid self gid gp v :
  __init__ raw sid = Ok self →
  call (get_gate_indices gid gp) self = Ok v →
  ∃ o, o ∈ occurrences_of gid raw
       ∧ v = Events (res_events (occ_res o))
       ∧ (1 < length (occurrences_of gid raw) →
          ∃ arg, gp = Some arg ∧ occ_path o = key_of_arg arg).
Proof.
  intros Hi Hcall.
  destruct (init_spec _ _ _ Hi) as (_ & _ & Hq & _ & Hlut & _).
  destruct (indices_returns _ _ _ _ _ _ Hi Hcall)
    as (e & p & qp & He & Hr & Hf).
  apply (fetch_ok _ _ _ _ _ Hq) in Hf as (o & Ho & Hp & _ & Hv).
  exists o. split_and!; [done|done|].
  intros Hlen. specialize (Hlut gid). unfold paths_of in Hlut.
  rewrite He in Hlut. unfold resolved in Hr.
  rewrite decide_True in Hr by (by rewrite Hlut, length_fmap).
  destruct gp as [arg|]; [|done]. exists arg. split; [done|].
  rewrite Hp. by destruct arg.
Qed.

(** X7. When the gate id has more than one path and its rows one quadrant
    parent value, a supplied gate path whose key is not a path of the id
    makes [get_gate_indices] raise: KeyError, unless the id is a field name
    of the records. It does not fall back on another path. *)
Theorem unmatched_path_raises raw sid self gid arg :
  __init__ raw sid = Ok self →
  1 < length (occurrences_of gid raw) →
  size (quad_parent_values self gid) = 1 →
  key_of_arg arg ∉ occ_path <$> occurrences_of gid raw →
  (∃ e, call (get_gate_indices gid (Some arg)) self = Raise e)
  ∧ (gid ∉ res_dict_keys →
     call (get_gate_indices gid (Some arg)) self = Raise KeyError).
Proof. apply indices_unmatched. Qed.

(** X8. Only a list is joined into a path string: when the gate id has
    more than one path, all kept as strings, and its rows have one quadrant
    parent value, a gate path given as a tuple of ancestor ids raises, also
    when its ids are those of a path of the id; the exception is KeyError
    for a gate id that is not itself the name of a field of the records. *)
Theorem tuple_path_not_joined raw sid self gid ids :
  __init__ raw sid = Ok self →
  1 < length (occurrences_of gid raw) →
  size (quad_parent_values self gid) = 1 →
  Forall (λ o, is_string_path (occ_path o)) (occurrences_of gid raw) →
  (∃ e, call (get_gate_indices gid (Some (ArgKey (PTuple ids)))) self
        = Raise e)
  ∧ (gid ∉ res_dict_keys →
     call (get_gate_indices gid (Some (ArgKey (PTuple ids)))) self
     = Raise KeyError).
Proof.
  intros Hi Hlen HS Hstr.
  apply (indices_unmatched raw sid self gid (ArgKey (PTuple ids)));
    try done.
  simpl. intros (o & Hp & Ho)%list_elem_of_fmap.
  pose proof (proj1 (Forall_forall _ _) Hstr o Ho) as Hs.
  simpl in Hs. by rewrite <-Hp in Hs.
Qed.

(** X9. For a gate id that occurs in the raw results but in no record of
    the sample of the instance, [get_gate_indices] raises the ValueError
    about multiple quadrant parents, with a gate path and, for an id with
    one path, without: the empty selection of rows has no quadrant parent
    value at all. *)
Theorem other_sample_indices raw sid self gid :
  __init__ raw sid = Ok self →
  occurrences_of gid raw ≠ [] →
  sample_occurrences sid gid raw = [] →
  (∀ arg, call (get_gate_indices gid (Some arg)) self
          = Raise (ValueError (multiple_parents_msg gid)))
  ∧ (length (occurrences_of gid raw) = 1 →
     call (get_gate_indices gid None) self
     = Raise (ValueError (multiple_parents_msg gid))).
Proof.
  intros Hi Hocc Hs.
  destruct (init_spec _ _ _ Hi) as (_ & _ & _ & _ & _ & Hne).
  destruct (lut_lookup_Some _ _ _ gid Hi Hocc) as (e & He & Hp).
  assert (size (quad_parent_values self gid) ≠ 1) as HS.
  { rewrite (quad_parent_values_spec _ _ _ _ Hi), Hs.
    by rewrite fmap_nil, list_to_set_nil, size_empty. }
  split.
  - intros arg. apply (indices_not_one_parent _ _ _ e); try done.
    by apply (Hne gid).
  - intros Hlen. apply (indices_not_one_parent _ _ _ e); try done.
    + by apply (Hne gid).
    + rewrite Hp, length_fmap. lia.
Qed.

(** X10. The order of the raw results does not matter to the id-only
    accessors: from the same records in another order the report can be
    built as well, and every accessor answers the same on every gate id. *)
Theorem accessors_order_independent raw1 raw2 sid self1 :
  raw1 ≡ₚ raw2 →
  __init__ raw1 sid = Ok self1 →
  ∃ self2,
    __init__ raw2 sid = Ok self2
    ∧ ∀ gid,
        call (get_gate_count gid) self1 = call (get_gate_count gid) self2
        ∧ call (get_gate_absolute_percent gid) self1
          = call (get_gate_absolute_percent gid) self2
        ∧ call (get_gate_relative_percent gid) self1
          = call (get_gate_relative_percent gid) self2.
Proof.
  intros Hp H1.
  destruct (init_spec _ _ _ H1) as (_ & _ & Hq & _).
  destruct (init_total raw2 sid (quadrants_typed_perm _ _ Hp Hq))
    as [self2 H2].
  exists self2. split; [done|]. intros gid.
  pose proof (sample_occurrences_perm sid gid _ _ Hp) as Hocc.
  unfold get_gate_count, get_gate_absolute_percent,
    get_gate_relative_percent.
  rewrite !(column_by_sample _ raw1 sid self1) by done.
  rewrite !(column_by_sample _ raw2 sid self2) by done.
  split_and!; by apply column_answer_perm.
Qed.

(** X11. Nor does the order of the raw results matter to
    [get_gate_indices]: on the same records (a dict, no key twice) in
    another order it returns or raises the same, for every gate id and
    every gate path. *)
Theorem indices_order_independent raw1 raw2 sid self1 self2 gid gp :
  raw1 ≡ₚ raw2 → is_dict raw1 →
  __init__ raw1 sid = Ok self1 → __init__ raw2 sid = Ok self2 →
  call (get_gate_indices gid gp) self1 = call (get_gate_indices gid gp) self2.
Proof. apply indices_perm. Qed.

(** * The further properties on the sample data *)

Lemma report_sorted_witness :
  ∃ self,
    __init__ reused_raw "data1.fcs" = Ok self
    ∧ Sorted row_le (report self).
Proof.
  destruct (__init__ reused_raw "data1.fcs") as [self|e] eqn:Hi;
    [|vm_compute in Hi; discriminate].
  exists self. split; [reflexivity|].
  apply (report_sorted reused_raw "data1.fcs" self Hi).
Defined.

Lemma lookup_table_paths_witness :
  ∃ self,
    __init__ reused_raw "data1.fcs" = Ok self
    ∧ _gate_lut self !! "nonexistent-gate" = None
    ∧ ∀ e, _gate_lut self !! "B" = Some e →
           paths e = [PStr "root/A"; PStr "root/C"].
Proof.
  destruct (__init__ reused_raw "data1.fcs") as [self|e] eqn:Hi;
    [|vm_compute in Hi; discriminate].
  exists self. split; [reflexivity|]. split.
  - apply (lookup_table_paths reused_raw "data1.fcs" self
             "nonexistent-gate" Hi).
    vm_compute; reflexivity.
  - intros e He.
    apply (proj2 (lookup_table_paths reused_raw "data1.fcs" self "B" Hi)
             e He).
Defined.

Lemma lookup_table_matches_report_witness :
  ∃ self,
    __init__ reused_raw "data1.fcs" = Ok self
    ∧ length (paths_of "B" (_gate_lut self))
      = length (filter (λ row : report_row, gate_id row = "B")
                  (report self)).
Proof.
  destruct (__init__ reused_raw "data1.fcs") as [self|e] eqn:Hi;
    [|vm_compute in Hi; discriminate].
  exists self. split; [reflexivity|].
  apply (lookup_table_matches_report reused_raw "data1.fcs" self "B" Hi).
Defined.

Lemma unreadable_quadrant_dict_witness :
  Exists unreadable events_raw
  ∧ __init__ events_raw "data1.fcs" = Raise KeyError.
Proof.
  assert (Exists unreadable events_raw) as Hex by by_decide.
  split; [exact Hex|].
  apply (unreadable_quadrant_dict events_raw "data1.fcs" Hex).
Defined.

Lemma accessors_by_sample_witness :
  ∃ self,
    __init__ reused_raw "data1.fcs" = Ok self
    ∧ call (get_gate_count "neg") self = Ok 2%Z
    ∧ call (get_gate_count "B") self
      = Raise (NotImplementedError not_implemented_msg)
    ∧ call (get_gate_count "nonexistent-gate") self = Raise IndexError.
Proof.
  destruct (__init__ reused_raw "data1.fcs") as [self|e] eqn:Hi;
    [|vm_compute in Hi; discriminate].
  exists self. split; [reflexivity|]. split_and!.
  - apply (eq_trans
             (proj1 (accessors_by_sample reused_raw "data1.fcs" self
                       "neg" Hi))).
    vm_compute; reflexivity.
  - apply (eq_trans
             (proj1 (accessors_by_sample reused_raw "data1.fcs" self
                       "B" Hi))).
    vm_compute; reflexivity.
  - apply (eq_trans
             (proj1 (accessors_by_sample reused_raw "data1.fcs" self
                       "nonexistent-gate" Hi))).
    vm_compute; reflexivity.
Defined.

Lemma indices_sound_witness :
  ∃ self o,
    __init__ reused_raw "data1.fcs" = Ok self
    ∧ o ∈ occurrences_of "B" reused_raw
    ∧ occ_path o = PStr "root/C"
    ∧ res_events (occ_res o) = [false; true; false; false].
Proof.
  assert (∃ self,
            __init__ reused_raw "data1.fcs" = Ok self
            ∧ call (get_gate_indices "B" (Some (ArgList ["root"; "C"]))) self
              = Ok (Events [false; true; false; false]))
    as (self & Hi & Hcall).
  { eexists. split; [vm_compute; reflexivity|vm_compute; reflexivity]. }
  destruct (indices_sound reused_raw "data1.fcs" self "B"
              (Some (ArgList ["root"; "C"]))
              (Events [false; true; false; false]) Hi Hcall)
    as (o & Ho & Hv & Hpath).
  destruct Hpath as (arg & Harg & Hp); [vm_compute; lia|].
  exists self, o. split_and!; [exact Hi|exact Ho| |].
  - injection Harg as <-. exact Hp.
  - by injection Hv.
Defined.

Lemma unmatched_path_raises_witness :
  ∃ self,
    __init__ reused_raw "data1.fcs" = Ok self
    ∧ call (get_gate_indices "B" (Some (ArgList ["root"; "Q"]))) self
      = Raise KeyError.
Proof.
  assert (∃ self,
            __init__ reused_raw "data1.fcs" = Ok self
            ∧ size (quad_parent_values self "B") = 1)
    as (self & Hi & HS).
  { eexists. split; [vm_compute; reflexivity|vm_compute; reflexivity]. }
  exists self. split; [exact Hi|].
  apply (unmatched_path_raises reused_raw "data1.fcs" self "B"
           (ArgList ["root"; "Q"]) Hi).
  - vm_compute; lia.
  - exact HS.
  - by_decide.
  - by_decide.
Defined.

Lemma tuple_path_not_joined_witness :
  ∃ self,
    __init__ reused_raw "data1.fcs" = Ok self
    ∧ call (get_gate_indices "B" (Some (ArgKey (PTuple ["root"; "A"])))) self
      = Raise KeyError.
Proof.
  assert (∃ self,
            __init__ reused_raw "data1.fcs" = Ok self
            ∧ size (quad_parent_values self "B") = 1)
    as (self & Hi & HS).
  { eexists. split; [vm_compute; reflexivity|vm_compute; reflexivity]. }
  exists self. split; [exact Hi|].
  apply (tuple_path_not_joined reused_raw "data1.fcs" self "B"
           ["root"; "A"] Hi).
  - vm_compute; lia.
  - exact HS.
  - by_decide.
  - by_decide.
Defined.

Lemma other_sample_indices_witness :
  ∃ self,
    __init__ reused_raw "data2.fcs" = Ok self
    ∧ call (get_gate_indices "A" None) self
      = Raise (ValueError (multiple_parents_msg "A"))
    ∧ call (get_gate_indices "B" (Some (ArgList ["root"; "A"]))) self
      = Raise (ValueError (multiple_parents_msg "B")).
Proof.
  destruct (__init__ reused_raw "data2.fcs") as [self|e] eqn:Hi;
    [|vm_compute in Hi; discriminate].
  exists self. split; [reflexivity|]. split.
  - apply (other_sample_indices reused_raw "data2.fcs" self "A" Hi).
    + vm_compute; discriminate.
    + vm_compute; reflexivity.
    + vm_compute; reflexivity.
  - apply (other_sample_indices reused_raw "data2.fcs" self "B" Hi).
    + vm_compute; discriminate.
    + vm_compute; reflexivity.
Defined.

Lemma accessors_order_independent_witness :
  ∃ self1 self2,
    __init__ reused_raw "data1.fcs" = Ok self1
    ∧ __init__ swapped_raw "data1.fcs" = Ok self2
    ∧ call (get_gate_count "B") self1 = call (get_gate_count "B") self2
    ∧ call (get_gate_relative_percent "neg") self1
      = call (get_gate_relative_percent "neg") self2.
Proof.
  destruct (__init__ reused_raw "data1.fcs") as [self1|e] eqn:Hi;
    [|vm_compute in Hi; discriminate].
  destruct (accessors_order_independent reused_raw swapped_raw
              "data1.fcs" self1) as (self2 & H2 & Hsame).
  - apply perm_swap.
  - exact Hi.
  - exists self1, self2. split_and!; [reflexivity|exact H2|..].
    + apply (Hsame "B").
    + apply (Hsame "neg").
Defined.

Lemma indices_order_independent_witness :
  ∃ self1 self2,
    __init__ reused_raw "data1.fcs" = Ok self1
    ∧ __init__ swapped_raw "data1.fcs" = Ok self2
    ∧ call (get_gate_indices "B" (Some (ArgList ["root"; "C"]))) self1
      = call (get_gate_indices "B" (Some (ArgList ["root"; "C"]))) self2.
Proof.
  destruct (__init__ reused_raw "data1.fcs") as [self1|e] eqn:H1;
    [|vm_compute in H1; discriminate].
  destruct (__init__ swapped_raw "data1.fcs") as [self2|e] eqn:H2;
    [|vm_compute in H2; discriminate].
  exists self1, self2. split_and!; [reflexivity|reflexivity|].
  apply (indices_order_independent reused_raw swapped_raw "data1.fcs"
           self1 self2 "B" (Some (ArgList ["root"; "C"]))).
  - apply perm_swap.
  - by_decide.
  - exact H1.
  - exact H2.
Defined.
